(** * Dispatchr: the store / domain registry of [lib/Dispatcher.js]

    A shallow embedding of the [Dispatcher] class: identity resolution
    ([getStoreName]), the two name registries ([registerStore],
    [registerDomain], [isRegistered], [isRegisteredDomain]) and the
    handler table ([_registerHandler]).

    The three tables of a dispatcher are JavaScript object literals
    ([{}]) used as maps.  Their own properties are a [gmap]; a read
    [table[k]] that finds no own property continues in
    [Object.prototype], which is written out in [Object_prototype]. *)

From Stdlib Require Import ZArith.
From stdpp Require Import gmap strings list fin_maps.

Local Open Scope string_scope.

(** ** Values *)

(** Heap addresses.  [Builtin k] is the address of the object found
    under the key [k] of [Object.prototype]; [Alloc n] is an object of
    the host program (a store class, a domain, an instance...). *)
Inductive loc : Type :=
| Builtin (k : string)
| Alloc (n : nat).

#[global] Instance loc_eq_dec : EqDecision loc.
Proof. solve_decision. Defined.

(** The values an argument of the registry can be.  Numbers occur only
    as arguments, where nothing but their type tag is inspected. *)
Inductive value : Type :=
| VUndefined
| VNull
| VBool (b : bool)
| VNum (z : Z)
| VStr (s : string)
| VRef (l : loc).

#[global] Instance value_eq_dec : EqDecision value.
Proof. solve_decision. Defined.

(** What the registry reads off an object: whether it is callable, its
    [storeName] and [name] properties (a string, or [None] for
    [undefined]) and its static [handlers] map, given as the pairs
    (action, handler) in the order [Object.keys] enumerates them. *)
Record object : Type := mkObject {
  callable : bool;
  obj_storeName : option string;
  obj_name : option string;
  obj_handlers : option (list (string * value))
}.

(** [typeof] *)
Inductive jstype : Type :=
| TUndefined | TObject | TBoolean | TNumber | TString | TFunction.

#[global] Instance jstype_eq_dec : EqDecision jstype.
Proof. solve_decision. Defined.

(** The exceptions that can leave a method of the dispatcher:
    [new Error(msg)] thrown by the code itself, and the two errors the
    language raises. *)
Inductive error : Type :=
| Error (msg : string)
| TypeError
| ReferenceError.

#[global] Instance error_eq_dec : EqDecision error.
Proof. solve_decision. Defined.

Inductive completion (A : Type) : Type :=
| Normal (a : A)
| Throw (e : error).
Arguments Normal {A} a.
Arguments Throw {A} e.

(** ToBoolean *)
Definition truthy (v : value) : bool :=
  match v with
  | VUndefined | VNull => false
  | VBool b => b
  | VNum z => negb (z =? 0)%Z
  | VStr s => negb (String.eqb s "")
  | VRef _ => true
  end.

(** A name as [getStoreName] returns it: a string or [undefined]. *)
Definition truthy_name (n : option string) : bool :=
  match n with
  | Some s => negb (String.eqb s "")
  | None => false
  end.

(** ToPropertyKey, for [table[name]]. *)
Definition key (n : option string) : string :=
  match n with
  | Some s => s
  | None => "undefined"
  end.

Definition of_name (n : option string) : value :=
  match n with
  | Some s => VStr s
  | None => VUndefined
  end.

(** ** Object.prototype *)

(** The own property names of [Object.prototype] in Node.js. *)
Definition Object_prototype_names : list string :=
  [ "constructor"; "__defineGetter__"; "__defineSetter__"; "hasOwnProperty";
    "__lookupGetter__"; "__lookupSetter__"; "isPrototypeOf";
    "propertyIsEnumerable"; "toString"; "valueOf"; "__proto__";
    "toLocaleString" ].

Definition Object_prototype (k : string) : value :=
  if bool_decide (k ∈ Object_prototype_names) then VRef (Builtin k)
  else VUndefined.

(** [table[k]] on an object literal with own properties [o]. *)
Definition get (o : gmap string value) (k : string) : value :=
  match o !! k with
  | Some v => v
  | None => Object_prototype k
  end.

(** [table[k] = v].  The key [__proto__] is an accessor of
    [Object.prototype]: unless an own property shadows it, assigning to
    it creates no own property.  The program only ever assigns to it
    the value it has just read from it, which leaves the prototype as
    it is. *)
Definition set {V : Type} (o : gmap string V) (k : string) (v : V)
  : gmap string V :=
  match o !! k with
  | Some _ => <[k := v]> o
  | None => if bool_decide (k = "__proto__") then o else <[k := v]> o
  end.

(** ** The dispatcher *)

(** [{ name: ..., handler: ... }] *)
Record HandlerBinding : Type := mkBinding {
  name : option string;
  handler : value
}.

#[global] Instance HandlerBinding_eq_dec : EqDecision HandlerBinding.
Proof. solve_decision. Defined.

(** What a key of the handler table holds: an array of bindings, or any
    other value (one inherited from [Object.prototype]). *)
Inductive entry : Type :=
| EArray (bs : list HandlerBinding)
| EValue (v : value).

#[global] Instance entry_eq_dec : EqDecision entry.
Proof. solve_decision. Defined.

Definition truthy_entry (e : entry) : bool :=
  match e with
  | EArray _ => true
  | EValue v => truthy v
  end.

(** [this.handlers[k]] *)
Definition hget (o : gmap string entry) (k : string) : entry :=
  match o !! k with
  | Some e => e
  | None => EValue (Object_prototype k)
  end.

Record Dispatcher : Type := mkDispatcher {
  stores : gmap string value;
  domains : gmap string value;
  handlers : gmap string entry
}.

Definition with_stores (this : Dispatcher) (s : gmap string value) :=
  mkDispatcher s (domains this) (handlers this).
Definition with_domains (this : Dispatcher) (d : gmap string value) :=
  mkDispatcher (stores this) d (handlers this).
Definition with_handlers (this : Dispatcher) (h : gmap string entry) :=
  mkDispatcher (stores this) (domains this) h.

(** ** Methods: state passing with exceptions

    A method takes the dispatcher [this] and yields its completion
    together with the dispatcher as the call leaves it: what a method
    has written before it throws stays written. *)
Definition M (A : Type) : Type := Dispatcher → completion A * Dispatcher.

#[global] Instance M_ret : MRet M := λ A a this, (Normal a, this).
#[global] Instance M_bind : MBind M := λ A B f m this,
  match m this with
  | (Normal a, this') => f a this'
  | (Throw e, this') => (Throw e, this')
  end.

Definition throw {A : Type} (e : error) : M A := λ this, (Throw e, this).
Definition reads {A : Type} (f : Dispatcher → A) : M A :=
  λ this, (Normal (f this), this).
Definition modify (f : Dispatcher → Dispatcher) : M unit :=
  λ this, (Normal tt, f this).
Definition lift {A : Type} (c : completion A) : M A := λ this, (c, this).

(** [xs.forEach(f, this)] *)
Fixpoint forEach {A : Type} (xs : list A) (f : A → M unit) : M unit :=
  match xs with
  | [] => mret tt
  | x :: xs' => f x ;; forEach xs' f
  end.

(** [Object.keys(hs)] and [hs[action]] on a handler map. *)
Definition Object_keys (hs : list (string * value)) : list string :=
  hs.*1.

Fixpoint prop (hs : list (string * value)) (k : string) : value :=
  match hs with
  | [] => VUndefined
  | (k', v) :: hs' => if bool_decide (k' = k) then v else prop hs' k
  end.

Definition DEFAULT : string := "default".

(** The errors the registry throws itself. *)
Definition invalid_store : error :=
  Error "registerStore requires a constructor as first parameter".
Definition missing_name : error :=
  Error "Store is required to have a `storeName` property.".
Definition duplicate_store (n : string) : error :=
  Error ("Store with name `" +:+ n +:+ "` has already been registered.").
Definition duplicate_domain (n : string) : error :=
  Error ("Domain with name `" +:+ n +:+ "` has already been registered.").

Section Dispatcher.

(** The host program's objects, which the dispatcher only reads. *)
Variable heap : loc → object.

(** The global scope, for identifiers that no scope of the module
    declares. *)
Variable global : string → option value.

Definition typeof (v : value) : jstype :=
  match v with
  | VUndefined => TUndefined
  | VNull => TObject
  | VBool _ => TBoolean
  | VNum _ => TNumber
  | VStr _ => TString
  | VRef l => if callable (heap l) then TFunction else TObject
  end.

(** [v.storeName], [v.name], [v.handlers]: a [TypeError] on [null]
    and [undefined], [undefined] on the other primitives. *)
Definition prop_storeName (v : value) : completion (option string) :=
  match v with
  | VUndefined | VNull => Throw TypeError
  | VRef l => Normal (obj_storeName (heap l))
  | _ => Normal None
  end.

Definition prop_name (v : value) : completion (option string) :=
  match v with
  | VUndefined | VNull => Throw TypeError
  | VRef l => Normal (obj_name (heap l))
  | _ => Normal None
  end.

Definition prop_handlers (v : value)
  : completion (option (list (string * value))) :=
  match v with
  | VUndefined | VNull => Throw TypeError
  | VRef l => Normal (obj_handlers (heap l))
  | _ => Normal None
  end.

Definition getStoreName (store : value) : completion (option string) :=
  match store with
  | VStr s => Normal (Some s)
  | _ =>
      match prop_storeName store with
      | Throw e => Throw e
      | Normal a =>
          if truthy_name a then Normal a else prop_name store
      end
  end.

(** [push] changes the array that the key holds.  The number
    [_registerHandler] returns, [this.handlers.length - 1], is dropped
    by its one caller and left out. *)
Definition _registerHandler (action : string) (name : value)
    (handler : value) : M unit :=
  modify (λ this,
    let cur := hget (handlers this) action in
    with_handlers this
      (set (handlers this) action
           (if truthy_entry cur then cur else EArray []))) ;;
  cur ← reads (λ this, hget (handlers this) action) ;
  match cur with
  | EArray bs =>
      n ← lift (getStoreName name) ;
      modify (λ this,
        with_handlers this
          (<[action := EArray (bs ++ [mkBinding n handler])]>
             (handlers this)))
  | EValue _ => throw TypeError
  end.

Definition registerStore (store : value) : M unit :=
  if negb (bool_decide (typeof store = TFunction)) then
    throw invalid_store
  else
    storeName ← lift (getStoreName store) ;
    if negb (truthy_name storeName) then
      throw missing_name
    else
      bound ← reads (λ this, get (stores this) (key storeName)) ;
      if truthy bound then
        if bool_decide (bound = store) then mret tt
        else
          throw (duplicate_store (key storeName))
      else
        modify (λ this,
          with_stores this (set (stores this) (key storeName) store)) ;;
        hs ← lift (prop_handlers store) ;
        match hs with
        | Some hs =>
            forEach (Object_keys hs) (λ action,
              let handler := prop hs action in
              _registerHandler action (of_name storeName) handler)
        | None => mret tt
        end.

Definition registerDomain (domain : value) : M unit :=
  domainName ← lift (getStoreName domain) ;
  if negb (truthy_name domainName) then
    throw missing_name
  else
    bound ← reads (λ this, get (domains this) (key domainName)) ;
    if truthy bound then
      if bool_decide (bound = domain) then mret tt
      else
        throw (duplicate_domain (key domainName))
    else
      modify (λ this,
        with_domains this (set (domains this) (key domainName) domain)).

Definition isRegistered (store : value) : M bool :=
  storeName ← lift (getStoreName store) ;
  storeInstance ← reads (λ this, get (stores this) (key storeName)) ;
  if negb (truthy storeInstance) then mret false
  else if bool_decide (typeof store = TFunction)
            && negb (bool_decide (store = storeInstance))
  then mret false
  else mret true.

(** [this.domainName[storeName]]: a dispatcher has no property
    [domainName] (its own properties are [stores], [domains] and
    [handlers], and neither [Dispatcher.prototype] nor
    [Object.prototype] has one), and no scope of the module declares
    [storeName].  Reading the identifier throws a [ReferenceError];
    were it a global of the host, the property access on [undefined]
    would throw a [TypeError]. *)
Definition isRegisteredDomain (domain : value) : M bool :=
  domainName ← lift (getStoreName domain) ;
  match global "storeName" with
  | None => throw ReferenceError
  | Some _ => throw TypeError
  end.

(** [new Dispatcher(options)]: the state before the eager
    registrations, and the constructor. *)
Definition init : Dispatcher :=
  mkDispatcher ∅ ∅ (set ∅ DEFAULT (EArray [])).

Record options : Type := mkOptions {
  opt_stores : option (list value);
  opt_domains : option (list value)
}.

Definition construct (o : option options) : completion () * Dispatcher :=
  let o := default (mkOptions None None) o in
  (forEach (default [] (opt_stores o)) registerStore ;;
   forEach (default [] (opt_domains o)) registerDomain) init.

Definition createDispatcher (o : option options) : completion Dispatcher :=
  match construct o with
  | (Normal _, this) => Normal this
  | (Throw e, _) => Throw e
  end.

(** ** Vocabulary of the properties *)

(** One turn of the loop of [registerStore] over the keys of the
    handler map [hs] of a store named [n]. *)
Definition each_handler (n : string) (hs : list (string * value))
    (action : string) : M unit :=
  _registerHandler action (VStr n) (prop hs action).

(** The bindings an array holds; a key that holds no array counts as
    holding none. *)
Definition bindings (e : entry) : list HandlerBinding :=
  match e with
  | EArray bs => bs
  | EValue _ => []
  end.

(** A key after some bindings were pushed under it. *)
Definition pushed (e : entry) (bs : list HandlerBinding) : entry :=
  match bs with
  | [] => e
  | _ => EArray (bindings e ++ bs)
  end.

Definition occurrences (k : string) (ks : list string) : nat :=
  length (filter (λ x, x = k) ks).

(** Apart from arrays, the handler table holds of its own only what
    it has taken over from [Object.prototype]. *)
Definition own_arrays (h : gmap string entry) : Prop :=
  ∀ k v, h !! k = Some (EValue v) → k ∈ Object_prototype_names.

(** [null] and [undefined] *)
Definition nullish (v : value) : bool :=
  match v with
  | VUndefined | VNull => true
  | _ => false
  end.

(** The store declares the binding under the action name [default]. *)
Definition declares_default (store : value) (b : HandlerBinding) : Prop :=
  typeof store = TFunction ∧
  getStoreName store = Normal (name b) ∧
  ∃ hs, prop_handlers store = Normal (Some hs) ∧ (DEFAULT, handler b) ∈ hs.

(** The dispatchers a program can come by: the one the constructor
    starts from, and what a call of [registerStore] or [registerDomain]
    leaves of one, whether the call returns or throws. *)
Inductive reachable : Dispatcher → Prop :=
| reachable_init : reachable init
| reachable_registerStore store this c this' :
    reachable this →
    registerStore store this = (c, this') →
    reachable this'
| reachable_registerDomain domain this c this' :
    reachable this →
    registerDomain domain this = (c, this') →
    reachable this'.

(** Every entry of the store registry is a constructor under its own
    canonical name. *)
Definition stores_named (this : Dispatcher) : Prop :=
  ∀ k v, stores this !! k = Some v →
         typeof v = TFunction ∧
         getStoreName v = Normal (Some k) ∧
         truthy_name (Some k) = true.

(** Every entry of the domain registry is under its own canonical
    name. *)
Definition domains_named (this : Dispatcher) : Prop :=
  ∀ k v, domains this !! k = Some v →
         getStoreName v = Normal (Some k) ∧
         truthy_name (Some k) = true.

(** Every binding of the handler table carries a name that the store
    registry binds. *)
Definition bindings_registered (this : Dispatcher) : Prop :=
  ∀ a bs b, handlers this !! a = Some (EArray bs) → b ∈ bs →
            ∃ s, name b = Some s ∧ is_Some (stores this !! s).

(** ** A host program

    The objects the examples below run on:
    - [Alloc 0], [class A] with [storeName = "A"] and
      [handlers = {foo: "onFoo"}];
    - [Alloc 1], another class that also claims the name ["A"];
    - [Alloc 2], [function S2] without [storeName], with
      [handlers = {foo: "onFooToo"}];
    - [Alloc 3], [class S] with [handlers = {toString: "onToString"}];
    - [Alloc 4], the plain object [{storeName: "A"}];
    - [Alloc 5], [class Log] with
      [handlers = {foo: "onFoo", default: "onAny"}];
    - the members of [Object.prototype], functions named after their
      key ([Object] under [constructor]), and [Object.prototype] itself
      under [__proto__].
    No global [storeName] is defined. *)
Definition example_heap (l : loc) : object :=
  match l with
  | Alloc 0 => mkObject true (Some "A") (Some "A") (Some [("foo", VStr "onFoo")])
  | Alloc 1 => mkObject true (Some "A") (Some "B") None
  | Alloc 2 =>
      mkObject true None (Some "S2") (Some [("foo", VStr "onFooToo")])
  | Alloc 3 =>
      mkObject true (Some "S") (Some "S")
        (Some [("toString", VStr "onToString")])
  | Alloc 4 => mkObject false (Some "A") None None
  | Alloc 5 =>
      mkObject true (Some "Log") (Some "Log")
        (Some [("foo", VStr "onFoo"); ("default", VStr "onAny")])
  | Alloc _ => mkObject false None None None
  | Builtin "__proto__" => mkObject false None None None
  | Builtin "constructor" => mkObject true None (Some "Object") None
  | Builtin k => mkObject true None (Some k) None
  end.

Definition example_global : string → option value := λ _, None.

(** The same host program with one more class, [Alloc 6], whose
    [storeName] is ["constructor"]. *)
Definition example_heap_constructor (l : loc) : object :=
  match l with
  | Alloc 6 => mkObject true (Some "constructor") (Some "Ctor") None
  | _ => example_heap l
  end.

(** * Properties *)

(** ** Tables *)

Lemma Object_prototype___proto__ : truthy (Object_prototype "__proto__") = true.
Proof. reflexivity. Qed.

Lemma get_empty (k : string) : get ∅ k = Object_prototype k.
Proof. unfold get. by rewrite lookup_empty. Qed.

Lemma Object_prototype_not_alloc (k : string) (a : nat) :
  Object_prototype k ≠ VRef (Alloc a).
Proof. unfold Object_prototype. by case_bool_decide. Qed.

Lemma get_set_falsy (o : gmap string value) (k : string) (v : value) :
  truthy (get o k) = false → get (set o k v) k = v.
Proof.
  unfold get, set. destruct (o !! k) as [w|] eqn:Hk.
  - intros _. by rewrite lookup_insert_eq.
  - case_bool_decide as Hp.
    + subst k. by rewrite Object_prototype___proto__.
    + intros _. by rewrite lookup_insert_eq.
Qed.

Lemma get_set_ne (o : gmap string value) (k k' : string) (v : value) :
  k ≠ k' → get (set o k v) k' = get o k'.
Proof.
  intros Hne. unfold get, set.
  destruct (o !! k); [|case_bool_decide]; by rewrite ?lookup_insert_ne.
Qed.

Lemma hget_insert_eq (o : gmap string entry) (k : string) (e : entry) :
  hget (<[k := e]> o) k = e.
Proof. unfold hget. by rewrite lookup_insert_eq. Qed.

Lemma hget_insert_ne (o : gmap string entry) (k k' : string) (e : entry) :
  k ≠ k' → hget (<[k := e]> o) k' = hget o k'.
Proof. intros. unfold hget. by rewrite lookup_insert_ne. Qed.

Lemma hget_set_ne (o : gmap string entry) (k k' : string) (e : entry) :
  k ≠ k' → hget (set o k e) k' = hget o k'.
Proof.
  intros Hne. unfold hget, set.
  destruct (o !! k); [|case_bool_decide]; by rewrite ?lookup_insert_ne.
Qed.

Lemma hget_array_own (o : gmap string entry) (k : string) bs :
  hget o k = EArray bs → o !! k = Some (EArray bs).
Proof. unfold hget. destruct (o !! k); by intros [= ->]. Qed.

Lemma hget_set_same (o : gmap string entry) (k : string) (e : entry) :
  hget o k = e → hget (set o k e) k = e.
Proof.
  intros <-. unfold hget, set. destruct (o !! k) eqn:Hown.
  - by rewrite lookup_insert_eq.
  - case_bool_decide; [by rewrite Hown|by rewrite lookup_insert_eq].
Qed.

Lemma hget_falsy_set (o : gmap string entry) (k : string) (e : entry) :
  truthy_entry (hget o k) = false → set o k e = <[k := e]> o.
Proof.
  unfold hget, set. destruct (o !! k); [done|].
  case_bool_decide; [by subst k|done].
Qed.

(** ** The monad *)

Ltac unfold_M :=
  unfold mbind, mret, M_bind, M_ret, throw, reads, modify, lift in *; simpl in *.

(** *** [_registerHandler] *)

(** The three ways a call of [_registerHandler] with a store name goes:
    append to the array the key holds, start a new array where the key
    reads falsy, or fail on a truthy value that is no array. *)
Lemma _registerHandler_spec action (n : string) h this :
  _registerHandler action (VStr n) h this =
  match hget (handlers this) action with
  | EArray bs =>
      (Normal tt,
       with_handlers this
         (<[action := EArray (bs ++ [mkBinding (Some n) h])]> (handlers this)))
  | EValue v =>
      if truthy v then
        (Throw TypeError,
         with_handlers this (set (handlers this) action (EValue v)))
      else
        (Normal tt,
         with_handlers this
           (<[action := EArray [mkBinding (Some n) h]]> (handlers this)))
  end.
Proof.
  unfold _registerHandler. unfold_M.
  destruct (hget (handlers this) action) as [bs|v] eqn:Hg; simpl.
  - apply hget_array_own in Hg as Hown.
    unfold set. rewrite Hown, hget_insert_eq. simpl.
    unfold with_handlers; simpl. by rewrite insert_insert_eq.
  - destruct (truthy v) eqn:Hv.
    + by rewrite (hget_set_same _ _ _ Hg).
    + rewrite hget_falsy_set by (by rewrite Hg).
      rewrite hget_insert_eq. simpl. unfold with_handlers; simpl.
      by rewrite insert_insert_eq.
Qed.

Lemma forEach_cons {A : Type} (x : A) (xs : list A) (f : A → M unit) this :
  forEach (x :: xs) f this =
  match f x this with
  | (Normal _, this') => forEach xs f this'
  | (Throw e, this') => (Throw e, this')
  end.
Proof. reflexivity. Qed.

(** *** The loop over a store's handler map *)

Lemma occurrences_cons_eq k ks : occurrences k (k :: ks) = S (occurrences k ks).
Proof. unfold occurrences. by rewrite filter_cons_True. Qed.

Lemma occurrences_cons_ne a k ks :
  a ≠ k → occurrences k (a :: ks) = occurrences k ks.
Proof. intros. unfold occurrences. by rewrite filter_cons_False. Qed.

Lemma occurrences_not_elem k ks : k ∉ ks → occurrences k ks = 0.
Proof.
  induction ks as [|a ks IH]; [done|].
  rewrite not_elem_of_cons. intros [Hne Hk].
  rewrite occurrences_cons_ne by done. auto.
Qed.

Lemma occurrences_NoDup k ks : NoDup ks → k ∈ ks → occurrences k ks = 1.
Proof.
  induction 1 as [|a ks Ha Hnd IH]; [by intros ?%elem_of_nil|].
  destruct (decide (a = k)) as [->|Hne].
  - intros _. by rewrite occurrences_cons_eq, occurrences_not_elem.
  - rewrite occurrences_cons_ne by done. intros [?|?]%elem_of_cons; [congruence|auto].
Qed.

Lemma prop_elem (hs : list (string * value)) (k : string) :
  k ∈ Object_keys hs → (k, prop hs k) ∈ hs.
Proof.
  unfold Object_keys. induction hs as [|[k' v] hs IH]; simpl.
  - by intros ?%elem_of_nil.
  - case_bool_decide as Hk.
    + subst k'. intros _. apply elem_of_cons. by left.
    + intros [?|?]%elem_of_cons; [congruence|]. apply elem_of_cons. auto.
Qed.

Lemma prop_NoDup (hs : list (string * value)) (k : string) (v : value) :
  NoDup (Object_keys hs) → (k, v) ∈ hs → prop hs k = v.
Proof.
  unfold Object_keys. induction hs as [|[k' v'] hs IH]; simpl.
  - by intros _ ?%elem_of_nil.
  - intros [Hk' Hnd]%NoDup_cons [Heq|Hin]%elem_of_cons.
    + injection Heq as -> ->. by rewrite bool_decide_eq_true_2.
    + case_bool_decide as Hk; [|auto]. subst k'.
      exfalso. apply Hk'. apply list_elem_of_fmap. by exists (k, v).
Qed.

(** The loop writes to the handler table only. *)
Lemma each_handler_frame n hs ks this c this' :
  forEach ks (each_handler n hs) this = (c, this') →
  stores this' = stores this ∧ domains this' = domains this.
Proof.
  revert this. induction ks as [|a ks IH]; intros this.
  - by intros [= _ <-].
  - rewrite forEach_cons.
    change (each_handler n hs a) with (_registerHandler a (VStr n) (prop hs a)).
    rewrite _registerHandler_spec.
    destruct (hget (handlers this) a) as [bs|v]; [|destruct (truthy v)];
      try (intros H; apply IH in H; by destruct H);
      by intros [= _ <-].
Qed.

(** A loop that completes has pushed, under every key, one binding for
    each time the key was enumerated, behind what the key held. *)
Lemma each_handler_normal n hs ks this this' (k : string) :
  forEach ks (each_handler n hs) this = (Normal tt, this') →
  hget (handlers this') k =
  pushed (hget (handlers this) k)
         (replicate (occurrences k ks) (mkBinding (Some n) (prop hs k))).
Proof.
  revert this. induction ks as [|a ks IH]; intros this.
  - by intros [= <-].
  - rewrite forEach_cons.
    change (each_handler n hs a) with (_registerHandler a (VStr n) (prop hs a)).
    rewrite _registerHandler_spec.
    destruct (decide (a = k)) as [->|Hne].
    + rewrite occurrences_cons_eq. simpl.
      destruct (hget (handlers this) k) as [bs|v] eqn:Hg;
        [|destruct (truthy v); [done|]];
        intros H; apply IH in H; rewrite H; simpl;
        rewrite hget_insert_eq;
        destruct (replicate _ _); simpl;
        by rewrite <- ?app_assoc, ?app_nil_r.
    + rewrite occurrences_cons_ne by done.
      destruct (hget (handlers this) a) as [bs|v];
        [|destruct (truthy v); [done|]];
        intros H; apply IH in H; rewrite H; simpl;
        by rewrite hget_insert_ne.
Qed.

(** However the loop completes, an array only grows, by bindings of
    this store for this key. *)
Lemma each_handler_array n hs ks this c this' (k : string) bs :
  hget (handlers this) k = EArray bs →
  forEach ks (each_handler n hs) this = (c, this') →
  ∃ m, hget (handlers this') k =
         EArray (bs ++ replicate m (mkBinding (Some n) (prop hs k)))
       ∧ (m ≠ 0 → k ∈ ks).
Proof.
  revert this bs. induction ks as [|a ks IH]; intros this bs Hk.
  - intros [= _ <-]. exists 0. by rewrite Hk, app_nil_r.
  - rewrite forEach_cons.
    change (each_handler n hs a) with (_registerHandler a (VStr n) (prop hs a)).
    rewrite _registerHandler_spec.
    destruct (decide (a = k)) as [->|Hne].
    + rewrite Hk. intros H. eapply IH in H; [|simpl; apply hget_insert_eq].
      destruct H as (m & -> & _). exists (S m). split.
      * by rewrite <- app_assoc.
      * intros _. apply elem_of_cons. by left.
    + assert (∀ m, (m ≠ 0 → k ∈ ks) → m ≠ 0 → k ∈ a :: ks) as Hin
        by (intros m Hm Hm0; apply elem_of_cons; auto).
      destruct (hget (handlers this) a) as [bs'|v]; [|destruct (truthy v)].
      * intros H. eapply IH in H;
          [|simpl; rewrite hget_insert_ne by done; apply Hk].
        destruct H as (m & -> & Hm). exists m. eauto.
      * intros [= _ <-]. exists 0. simpl.
        rewrite hget_set_ne by done. by rewrite Hk, app_nil_r.
      * intros H. eapply IH in H;
          [|simpl; rewrite hget_insert_ne by done; apply Hk].
        destruct H as (m & -> & Hm). exists m. eauto.
Qed.

(** *** [registerStore] and [registerDomain], state by state *)

Lemma truthy_name_Some n : truthy_name n = true → n = Some (key n).
Proof. by destruct n. Qed.

Lemma getStoreName_function store :
  typeof store = TFunction →
  ∃ l, store = VRef l ∧ prop_handlers store = Normal (obj_handlers (heap l)).
Proof. destruct store; try done. eauto. Qed.

Lemma registerStore_unfold store this :
  registerStore store this =
  if bool_decide (typeof store = TFunction) then
    match getStoreName store with
    | Throw e => (Throw e, this)
    | Normal n =>
        if truthy_name n then
          if truthy (get (stores this) (key n)) then
            if bool_decide (get (stores this) (key n) = store)
            then (Normal tt, this)
            else (Throw (duplicate_store (key n)), this)
          else
            let this1 :=
              with_stores this (set (stores this) (key n) store) in
            match prop_handlers store with
            | Throw e => (Throw e, this1)
            | Normal (Some hs) =>
                forEach (Object_keys hs) (each_handler (key n) hs) this1
            | Normal None => (Normal tt, this1)
            end
        else (Throw missing_name, this)
    end
  else (Throw invalid_store, this).
Proof.
  unfold registerStore. case_bool_decide; [|done]. unfold_M.
  destruct (getStoreName store) as [n|e]; [|done]. simpl.
  destruct (truthy_name n) eqn:Hn; [|done]. simpl.
  destruct n as [s|]; [|done]. simpl.
  destruct (truthy _); [by case_bool_decide|].
  by destruct (prop_handlers store) as [[hs|]|].
Qed.

Lemma registerDomain_unfold domain this :
  registerDomain domain this =
  match getStoreName domain with
  | Throw e => (Throw e, this)
  | Normal n =>
      if truthy_name n then
        if truthy (get (domains this) (key n)) then
          if bool_decide (get (domains this) (key n) = domain)
          then (Normal tt, this)
          else (Throw (duplicate_domain (key n)), this)
        else
          (Normal tt,
           with_domains this (set (domains this) (key n) domain))
      else (Throw missing_name, this)
  end.
Proof.
  unfold registerDomain. unfold_M.
  destruct (getStoreName domain) as [n|e]; [|done]. simpl.
  destruct (truthy_name n); [|done]. simpl.
  destruct (truthy _); [by case_bool_decide|done].
Qed.

(** A registration that completes leaves the store bound to its name;
    either it was (the early return) or it has just been written. *)
Lemma registerStore_normal store this this' :
  registerStore store this = (Normal tt, this') →
  ∃ n, getStoreName store = Normal (Some n) ∧
       truthy_name (Some n) = true ∧
       typeof store = TFunction ∧
       get (stores this') n = store ∧
       domains this' = domains this.
Proof.
  rewrite registerStore_unfold. intros H.
  case_bool_decide as Hty; [|done].
  destruct (getStoreName store) as [[n|]|e]; [|done..].
  destruct (truthy_name (Some n)) eqn:Hn; [|done].
  exists n. simpl in H.
  destruct (truthy (get (stores this) n)) eqn:Hb.
  - case_bool_decide as Heq; [|done]. by injection H as <-.
  - assert (∀ t, stores t = set (stores this) n store →
                 domains t = domains this →
                 Normal (Some n) = Normal (Some n) ∧
                 truthy_name (Some n) = true ∧
                 typeof store = TFunction ∧
                 get (stores t) n = store ∧
                 domains t = domains this) as Hfin.
    { intros t -> ->. by rewrite get_set_falsy. }
    destruct (prop_handlers store) as [[hs|]|]; [| |done].
    + apply each_handler_frame in H as [Hs Hd]. by apply Hfin.
    + injection H as <-. by apply Hfin.
Qed.

Lemma typeof_function_truthy store :
  typeof store = TFunction → truthy store = true.
Proof. by destruct store. Qed.

(** ** Idempotent re-registration *)

(** C3.  Registering a store that is already registered (the identical
    reference, under its name) completes normally and leaves the whole
    dispatcher as the first registration left it.  So where the store
    was unbound before the first registration, each action of its
    handler map holds what it held before plus exactly one binding of
    the store, not two. *)
Theorem reregistration_idempotent store this this' :
  registerStore store this = (Normal tt, this') →
  registerStore store this' = (Normal tt, this') ∧
  ∀ n hs action h,
    getStoreName store = Normal (Some n) →
    truthy (get (stores this) n) = false →
    prop_handlers store = Normal (Some hs) →
    NoDup (Object_keys hs) →
    (action, h) ∈ hs →
    hget (handlers this') action =
    EArray (bindings (hget (handlers this) action) ++ [mkBinding (Some n) h]).
Proof.
  intros Hreg. split.
  - destruct (registerStore_normal _ _ _ Hreg) as (n & Hn & Ht & Hty & Hget & _).
    rewrite registerStore_unfold, bool_decide_eq_true_2 by done.
    rewrite Hn, Ht. simpl. rewrite Hget, (typeof_function_truthy _ Hty).
    by rewrite bool_decide_eq_true_2.
  - intros n hs action h Hn Hfree Hhs Hnd Hin.
    rewrite registerStore_unfold in Hreg.
    case_bool_decide; [|done]. rewrite Hn in Hreg.
    destruct (truthy_name (Some n)); [|done]. simpl in Hreg.
    rewrite Hfree, Hhs in Hreg.
    apply (each_handler_normal _ _ _ _ _ action) in Hreg. rewrite Hreg.
    rewrite occurrences_NoDup; [|done|].
    + simpl. by rewrite (prop_NoDup hs action h).
    + apply list_elem_of_fmap. by exists (action, h).
Qed.

(** ** Reference-aware lookup *)

(** C8.  After a class [A] with canonical name [n] has been registered,
    [isRegistered(n)] and [isRegistered(A)] return true, and
    [isRegistered(B)] returns false for every other class [B] that
    resolves to the same name. *)
Theorem isRegistered_reference_aware A n this this' :
  getStoreName A = Normal (Some n) →
  registerStore A this = (Normal tt, this') →
  isRegistered (VStr n) this' = (Normal true, this') ∧
  isRegistered A this' = (Normal true, this') ∧
  ∀ B, typeof B = TFunction → B ≠ A →
       getStoreName B = Normal (Some n) →
       isRegistered B this' = (Normal false, this').
Proof.
  intros Hn Hreg.
  destruct (registerStore_normal _ _ _ Hreg) as (n' & Hn' & _ & Hty & Hget & _).
  rewrite Hn in Hn'. injection Hn' as <-.
  pose proof (typeof_function_truthy _ Hty) as HA.
  unfold isRegistered. unfold_M. rewrite Hn. simpl. rewrite Hget, HA. simpl.
  repeat split.
  - by rewrite bool_decide_eq_true_2, bool_decide_eq_true_2.
  - intros B HB Hne ->. simpl. rewrite Hget, HA. simpl.
    by rewrite bool_decide_eq_true_2, bool_decide_eq_false_2.
Qed.

(** ** Independent name spaces *)

Lemma each_handler_with_domains n hs ks this d :
  forEach ks (each_handler n hs) (with_domains this d) =
  ((forEach ks (each_handler n hs) this).1,
   with_domains (forEach ks (each_handler n hs) this).2 d).
Proof.
  revert this. induction ks as [|a ks IH]; intros this; [done|].
  rewrite !forEach_cons.
  change (each_handler n hs a) with (_registerHandler a (VStr n) (prop hs a)).
  rewrite !_registerHandler_spec. simpl.
  destruct (hget (handlers this) a) as [bs|v]; [|destruct (truthy v)];
    try done; apply (IH (with_handlers this _)).
Qed.

(** [registerStore] neither reads nor writes the domain registry. *)
Lemma registerStore_with_domains store this d :
  registerStore store (with_domains this d) =
  ((registerStore store this).1, with_domains (registerStore store this).2 d).
Proof.
  rewrite !registerStore_unfold. simpl.
  case_bool_decide; [|done].
  destruct (getStoreName store) as [n|]; [|done].
  destruct (truthy_name n); [|done].
  destruct (truthy _); [by case_bool_decide|].
  destruct (prop_handlers store) as [[hs|]|]; try done.
  apply (each_handler_with_domains _ _ _ (with_stores this _)).
Qed.

(** [registerDomain] neither reads nor writes the store registry and
    the handler table. *)
Lemma registerDomain_frame domain this s h :
  registerDomain domain (mkDispatcher s (domains this) h) =
  ((registerDomain domain this).1,
   mkDispatcher s (domains (registerDomain domain this).2) h).
Proof.
  rewrite !registerDomain_unfold. simpl.
  destruct (getStoreName domain) as [n|]; [|done].
  destruct (truthy_name n); [|done].
  destruct (truthy _); [by case_bool_decide|done].
Qed.

Lemma registerDomain_writes_domains domain this c this' :
  registerDomain domain this = (c, this') →
  stores this' = stores this ∧ handlers this' = handlers this.
Proof.
  destruct this as [s d h]. intros H.
  pose proof (registerDomain_frame domain (mkDispatcher s d h) s h) as Hf.
  simpl in Hf. rewrite H in Hf. by injection Hf as ->.
Qed.

(** X17.  [registerStore] and [registerDomain] do not get in each
    other's way: a store registration and a domain registration that
    each complete on a dispatcher also complete one after the other,
    in either order, with the same final dispatcher, whatever names
    they resolve to (the same one included); and [isRegistered] does
    not see what [registerDomain] has bound. *)
Theorem namespaces_independent store domain this thisS thisD :
  registerStore store this = (Normal tt, thisS) →
  registerDomain domain this = (Normal tt, thisD) →
  let both := mkDispatcher (stores thisS) (domains thisD) (handlers thisS) in
  registerDomain domain thisS = (Normal tt, both) ∧
  registerStore store thisD = (Normal tt, both) ∧
  ∀ v, (isRegistered v thisD).1 = (isRegistered v this).1.
Proof.
  intros HS HD both.
  destruct (registerStore_normal _ _ _ HS) as (_ & _ & _ & _ & _ & Hdom).
  destruct (registerDomain_writes_domains _ _ _ _ HD) as [Hst Hh].
  repeat split.
  - replace thisS with (mkDispatcher (stores thisS) (domains this) (handlers thisS))
      by (destruct thisS; simpl in *; by subst).
    by rewrite registerDomain_frame, HD.
  - replace thisD with (with_domains this (domains thisD))
      by (destruct thisD, this; simpl in *; by subst).
    rewrite registerStore_with_domains, HS. simpl. by destruct thisS.
  - intros v. unfold isRegistered. unfold_M.
    destruct (getStoreName v); [|done]. simpl. rewrite Hst.
    destruct (negb _); [done|]. by destruct (_ && _).
Qed.

(** ** The registry methods on [null] and [undefined] *)

(** C10.  On [null] and [undefined] the property access of
    [getStoreName] throws a [TypeError], and so do [isRegistered],
    [registerDomain] and [isRegisteredDomain], which call it first;
    [registerStore] fails with its own invalid-store error before it
    reaches [getStoreName].  No call changes the dispatcher. *)
Theorem nullish_argument (v : value) (this : Dispatcher) :
  nullish v = true →
  getStoreName v = Throw TypeError ∧
  isRegistered v this = (Throw TypeError, this) ∧
  registerDomain v this = (Throw TypeError, this) ∧
  isRegisteredDomain v this = (Throw TypeError, this) ∧
  registerStore v this = (Throw invalid_store, this).
Proof. by destruct v. Qed.

(** ** The domain lookup *)

(** [isRegisteredDomain] returns on no argument and no dispatcher. *)
Lemma isRegisteredDomain_throws domain this :
  ∃ e, isRegisteredDomain domain this = (Throw e, this).
Proof.
  unfold isRegisteredDomain. unfold_M.
  destruct (getStoreName domain); simpl; [|eauto].
  destruct (global "storeName"); eauto.
Qed.

(** ** The default bucket *)

Lemma registerStore_default store this c this' bs :
  hget (handlers this) DEFAULT = EArray bs →
  registerStore store this = (c, this') →
  ∃ bs', hget (handlers this') DEFAULT = EArray (bs ++ bs') ∧
         Forall (declares_default store) bs'.
Proof.
  intros Hd. rewrite registerStore_unfold.
  assert (∀ t, handlers t = handlers this →
               ∃ bs', hget (handlers t) DEFAULT = EArray (bs ++ bs') ∧
                      Forall (declares_default store) bs') as Hsame.
  { intros t ->. exists []. by rewrite app_nil_r. }
  case_bool_decide as Hty; [|intros [= _ <-]; by apply Hsame].
  destruct (getStoreName store) as [n|] eqn:Hn; [|intros [= _ <-]; by apply Hsame].
  destruct (truthy_name n) eqn:Ht; [|intros [= _ <-]; by apply Hsame].
  destruct (truthy _); [case_bool_decide; intros [= _ <-]; by apply Hsame|].
  simpl. destruct (prop_handlers store) as [[hs|]|] eqn:Hhs;
    [|intros [= _ <-]; by apply Hsame..].
  intros H. eapply each_handler_array in H; [|exact Hd].
  destruct H as (m & -> & Hm). eexists. split; [done|].
  destruct m as [|m]; [by constructor|]. apply Forall_replicate.
  split; [done|]. split; [simpl; by rewrite <- truthy_name_Some|].
  exists hs. split; [done|]. simpl. apply prop_elem. by apply Hm.
Qed.

Lemma forEach_registerStore_default ss this c this' bs :
  hget (handlers this) DEFAULT = EArray bs →
  forEach ss registerStore this = (c, this') →
  ∃ bs', hget (handlers this') DEFAULT = EArray (bs ++ bs') ∧
         Forall (λ b, ∃ store, store ∈ ss ∧ declares_default store b) bs'.
Proof.
  revert this bs. induction ss as [|s ss IH]; intros this bs Hd.
  - intros [= _ <-]. exists []. by rewrite app_nil_r.
  - rewrite forEach_cons.
    destruct (registerStore s this) as [c1 this1] eqn:H1.
    destruct (registerStore_default _ _ _ _ _ Hd H1) as (bs1 & Hd1 & Hall1).
    assert (Forall (λ b, ∃ store, store ∈ s :: ss ∧ declares_default store b) bs1)
      as Hall1'.
    { eapply Forall_impl; [exact Hall1|]. intros b Hb. exists s.
      split; [apply elem_of_cons; by left|done]. }
    destruct c1 as [[]|e].
    + intros H. apply (IH _ _ Hd1) in H as (bs2 & -> & Hall2).
      exists (bs1 ++ bs2)%list. rewrite app_assoc. split; [done|].
      apply Forall_app. split; [done|].
      eapply Forall_impl; [exact Hall2|]. intros b (store & Hin & Hb).
      exists store. split; [apply elem_of_cons; by right|done].
    + intros [= _ <-]. eauto.
Qed.

Lemma forEach_registerDomain_handlers ds this c this' :
  forEach ds registerDomain this = (c, this') →
  handlers this' = handlers this.
Proof.
  revert this. induction ds as [|d ds IH]; intros this.
  - by intros [= _ <-].
  - rewrite forEach_cons.
    destruct (registerDomain d this) as [c1 this1] eqn:H1.
    apply registerDomain_writes_domains in H1 as [_ <-].
    destruct c1; [apply IH|by intros [= _ <-]].
Qed.

(** C6.  A dispatcher constructed without options is [init], whose
    handler table has the key [default] with an empty array: the
    constructor creates it before it registers anything.  From then on
    a call of [registerStore], however it completes, only appends to
    that array, and only bindings that the store it was called with
    declares under the action name [default]; so after the eager
    registrations of a constructor with options the array holds
    nothing but such bindings of the stores in the options. *)
Theorem default_bucket :
  construct None = (Normal tt, init) ∧
  hget (handlers init) DEFAULT = EArray [] ∧
  (∀ store this c this' bs,
     hget (handlers this) DEFAULT = EArray bs →
     registerStore store this = (c, this') →
     ∃ bs', hget (handlers this') DEFAULT = EArray (bs ++ bs') ∧
            Forall (declares_default store) bs') ∧
  (∀ o c this,
     construct o = (c, this) →
     ∃ bs, hget (handlers this) DEFAULT = EArray bs ∧
           Forall (λ b, ∃ store,
                     store ∈ default [] (o ≫= opt_stores) ∧
                     declares_default store b) bs).
Proof.
  split; [done|]. split; [done|]. split; [apply registerStore_default|].
  intros o c this. unfold construct. unfold_M.
  replace (default [] (opt_stores (default (mkOptions None None) o)))
    with (default [] (o ≫= opt_stores)) by by destruct o.
  destruct (forEach _ registerStore init) as [c1 this1] eqn:H1.
  eapply forEach_registerStore_default in H1 as (bs & Hd & Hall); [|done].
  destruct c1.
  - intros ->%forEach_registerDomain_handlers. eauto.
  - intros [= _ <-]. eauto.
Qed.

(** ** Handler order *)

Lemma init_bindings (k : string) : bindings (hget (handlers init) k) = [].
Proof.
  change (handlers init) with (<[DEFAULT := EArray []]> (∅ : gmap string entry)).
  destruct (decide (DEFAULT = k)) as [<-|Hne]; [done|].
  rewrite hget_insert_ne by done. unfold hget. by rewrite lookup_empty.
Qed.

(** C2.  Two distinct store classes [S1], with handlers [{foo: h1}],
    and [S2], with handlers [{foo: h2}], registered in this order on a
    new dispatcher, leave under the action [foo] exactly the binding of
    [S1] followed by the binding of [S2]. *)
Theorem handler_order (a1 a2 : nat) (foo : string) (h1 h2 : value)
    (n1 n2 : option string) (this1 this2 : Dispatcher) :
  a1 ≠ a2 →
  obj_handlers (heap (Alloc a1)) = Some [(foo, h1)] →
  obj_handlers (heap (Alloc a2)) = Some [(foo, h2)] →
  getStoreName (VRef (Alloc a1)) = Normal n1 →
  getStoreName (VRef (Alloc a2)) = Normal n2 →
  registerStore (VRef (Alloc a1)) init = (Normal tt, this1) →
  registerStore (VRef (Alloc a2)) this1 = (Normal tt, this2) →
  hget (handlers this2) foo = EArray [mkBinding n1 h1; mkBinding n2 h2].
Proof.
  intros Hne Hh1 Hh2 Hn1 Hn2 H1 H2.
  destruct (registerStore_normal _ _ _ H1) as (m1 & Hm1 & _ & _ & Hg1 & _).
  rewrite Hn1 in Hm1. injection Hm1 as ->.
  destruct (registerStore_normal _ _ _ H2) as (m2 & Hm2 & _ & _ & _ & _).
  rewrite Hn2 in Hm2. injection Hm2 as ->.
  rewrite registerStore_unfold in H1, H2.
  case_bool_decide; [|done]. case_bool_decide; [|done].
  rewrite Hn1 in H1. rewrite Hn2 in H2. cbn [key prop_handlers] in H1, H2.
  destruct (truthy_name (Some m1)); [|done].
  destruct (truthy_name (Some m2)); [|done].
  rewrite Hh1 in H1. rewrite Hh2 in H2.
  change (stores init) with (∅ : gmap string value) in H1.
  rewrite get_empty in H1.
  destruct (truthy (Object_prototype m1)) eqn:Hfree1.
  { rewrite bool_decide_eq_false_2 in H1 by apply Object_prototype_not_alloc.
    done. }
  cbv zeta in H1.
  pose proof (each_handler_frame _ _ _ _ _ _ H1) as [Hst1 _].
  apply (each_handler_normal _ _ _ _ _ foo) in H1.
  cbn [Object_keys fmap list_fmap fst] in H1.
  rewrite occurrences_cons_eq in H1. cbn [occurrences filter list_filter length replicate] in H1.
  change (handlers (with_stores init ?x)) with (handlers init) in H1.
  unfold pushed in H1. rewrite init_bindings in H1.
  cbn [prop app] in H1. rewrite bool_decide_eq_true_2 in H1 by done.
  destruct (truthy (get (stores this1) m2)) eqn:Hb2.
  - exfalso. case_bool_decide as Heq; [|done].
    destruct (decide (m1 = m2)) as [->|Hm].
    + rewrite Hg1 in Heq. congruence.
    + rewrite Hst1 in Heq. cbn [stores with_stores] in Heq.
      rewrite get_set_ne, get_empty in Heq by done.
      by apply Object_prototype_not_alloc in Heq.
  - cbv zeta in H2.
    apply (each_handler_normal _ _ _ _ _ foo) in H2.
    cbn [Object_keys fmap list_fmap fst] in H2.
    rewrite occurrences_cons_eq in H2.
    cbn [occurrences filter list_filter length replicate] in H2.
    change (handlers (with_stores this1 ?x)) with (handlers this1) in H2.
    rewrite H1 in H2. cbn [pushed bindings prop app] in H2.
    by rewrite bool_decide_eq_true_2 in H2.
Qed.

(** ** Where [registerStore] completes *)

Lemma own_arrays_init : own_arrays (handlers init).
Proof.
  intros k v. change (handlers init) with (<[DEFAULT := EArray []]> (∅ : gmap string entry)).
  destruct (decide (DEFAULT = k)) as [<-|Hne].
  - by rewrite lookup_insert_eq.
  - by rewrite lookup_insert_ne, lookup_empty.
Qed.

Lemma own_arrays_insert_array h k bs :
  own_arrays h → own_arrays (<[k := EArray bs]> h).
Proof.
  intros Hh k' v. destruct (decide (k = k')) as [<-|Hne].
  - by rewrite lookup_insert_eq.
  - rewrite lookup_insert_ne by done. apply Hh.
Qed.

Lemma own_arrays_set_inherited h k v :
  own_arrays h → hget h k = EValue v → truthy v = true →
  own_arrays (set h k (EValue v)).
Proof.
  intros Hh Hg Hv. unfold set. unfold hget in Hg.
  assert (k ∈ Object_prototype_names) as Hk.
  { destruct (h !! k) as [e|] eqn:Hown.
    - subst e. by apply (Hh k v).
    - injection Hg as <-. unfold Object_prototype in Hv.
      by case_bool_decide. }
  assert (own_arrays (<[k := EValue v]> h)) as Hins.
  { intros k' v'. destruct (decide (k = k')) as [<-|Hne].
    - by rewrite lookup_insert_eq.
    - rewrite lookup_insert_ne by done. apply Hh. }
  destruct (h !! k); [done|]. by case_bool_decide.
Qed.

Lemma each_handler_own_arrays n hs ks this c this' :
  own_arrays (handlers this) →
  forEach ks (each_handler n hs) this = (c, this') →
  own_arrays (handlers this').
Proof.
  revert this. induction ks as [|a ks IH]; intros this Hh.
  - by intros [= _ <-].
  - rewrite forEach_cons.
    change (each_handler n hs a) with (_registerHandler a (VStr n) (prop hs a)).
    rewrite _registerHandler_spec.
    destruct (hget (handlers this) a) as [bs|v] eqn:Hg;
      [|destruct (truthy v) eqn:Hv].
    + apply IH. by apply own_arrays_insert_array.
    + intros [= _ <-]. by apply own_arrays_set_inherited.
    + apply IH. by apply own_arrays_insert_array.
Qed.

(** The invariant of the handler table, under registrations however
    they complete. *)
Lemma registerStore_own_arrays store this c this' :
  own_arrays (handlers this) →
  registerStore store this = (c, this') →
  own_arrays (handlers this').
Proof.
  intros Hh. rewrite registerStore_unfold.
  case_bool_decide; [|by intros [= _ <-]].
  destruct (getStoreName store) as [n|]; [|by intros [= _ <-]].
  destruct (truthy_name n); [|by intros [= _ <-]].
  destruct (truthy _); [case_bool_decide; by intros [= _ <-]|].
  cbv zeta. destruct (prop_handlers store) as [[hs|]|];
    [|by intros [= _ <-]..].
  by apply each_handler_own_arrays.
Qed.

Lemma each_handler_completes n hs ks this :
  own_arrays (handlers this) →
  Forall (λ k, k ∉ Object_prototype_names) ks →
  ∃ this', forEach ks (each_handler n hs) this = (Normal tt, this').
Proof.
  intros Hh Hks. revert this Hh.
  induction Hks as [|a ks Ha _ IH]; intros this Hh; [by eexists|].
  rewrite forEach_cons.
  change (each_handler n hs a) with (_registerHandler a (VStr n) (prop hs a)).
  rewrite _registerHandler_spec.
  destruct (hget (handlers this) a) as [bs|v] eqn:Hg;
    [|destruct (truthy v) eqn:Hv].
  - apply IH. by apply own_arrays_insert_array.
  - exfalso. unfold hget in Hg. destruct (handlers this !! a) eqn:Hown.
    + subst. by apply Ha, (Hh a v).
    + injection Hg as <-. unfold Object_prototype in Hv.
      by case_bool_decide.
  - apply IH. by apply own_arrays_insert_array.
Qed.

(** Past its three checks, [registerStore] completes and binds the
    name, provided no key of the handler map is a property name of
    [Object.prototype]. *)
Lemma registerStore_completes store n this :
  typeof store = TFunction →
  getStoreName store = Normal (Some n) →
  truthy_name (Some n) = true →
  truthy (get (stores this) n) = false →
  own_arrays (handlers this) →
  (∀ hs, prop_handlers store = Normal (Some hs) →
         Forall (λ k, k ∉ Object_prototype_names) (Object_keys hs)) →
  ∃ this', registerStore store this = (Normal tt, this') ∧
           get (stores this') n = store.
Proof.
  intros Hty Hn Ht Hfree Hh Hkeys.
  assert (∃ this', registerStore store this = (Normal tt, this')) as [this' H].
  { rewrite registerStore_unfold, bool_decide_eq_true_2, Hn, Ht by done.
    cbn [key]. rewrite Hfree. cbv zeta.
    destruct (prop_handlers store) as [[hs|]|] eqn:Hhs.
    - apply each_handler_completes; [done|]. by apply Hkeys.
    - by eexists.
    - destruct (getStoreName_function _ Hty) as (l & -> & ?). done. }
  exists this'. split; [done|].
  destruct (registerStore_normal _ _ _ H) as (n' & Hn' & _ & _ & Hget & _).
  rewrite Hn in Hn'. by injection Hn' as <-.
Qed.

(** * Further properties of the registry *)

(** ** Identity resolution *)

Lemma getStoreName_nullish (v : value) :
  match getStoreName v with
  | Throw e => e = TypeError ∧ nullish v = true
  | Normal _ => nullish v = false
  end.
Proof.
  destruct v as [| | b|z|s|l]; simpl; try done.
  by destruct (truthy_name (obj_storeName (heap l))).
Qed.

(** X1.  [getStoreName] throws only on [null] and [undefined], and then
    a [TypeError].  On everything else it returns: a string as it is,
    no name for a boolean or a number, and for an object its
    [storeName] unless that is empty or missing, in which case its
    [name]. *)
Theorem getStoreName_resolves (v : value) :
  match getStoreName v with
  | Throw e => e = TypeError ∧ nullish v = true
  | Normal n =>
      nullish v = false ∧
      (∀ s, v = VStr s → n = Some s) ∧
      (typeof v = TBoolean ∨ typeof v = TNumber → n = None) ∧
      (∀ l, v = VRef l →
            n = if truthy_name (obj_storeName (heap l))
                then obj_storeName (heap l) else obj_name (heap l))
  end.
Proof.
  destruct v as [| | b|z|s|l]; simpl; try done;
    try (repeat split; try done; try congruence;
         intros [?|?]; discriminate).
  destruct (truthy_name (obj_storeName (heap l))) eqn:Hs; simpl;
    (repeat split; try done;
     [destruct (callable (heap l)); intros [?|?]; discriminate
     |intros l' [= <-]; by rewrite Hs]).
Qed.

(** ** The lookup *)

(** X2.  [isRegistered] never writes to the dispatcher; it throws (a
    [TypeError]) on [null] and [undefined] and returns a boolean on
    every other argument. *)
Theorem isRegistered_reads_only (v : value) (this : Dispatcher) :
  (isRegistered v this).2 = this ∧
  (nullish v = true → (isRegistered v this).1 = Throw TypeError) ∧
  (nullish v = false → ∃ b, (isRegistered v this).1 = Normal b).
Proof.
  unfold isRegistered. unfold_M.
  pose proof (getStoreName_nullish v) as Hn.
  destruct (getStoreName v) as [n|e]; simpl.
  - rewrite Hn.
    destruct (negb _); [|destruct (_ && _)]; simpl;
      (split; [done|]; split; [done|]; eauto).
  - destruct Hn as [-> Hv]. rewrite Hv. by repeat split.
Qed.

(** ** The handler table, one call at a time *)

Lemma _registerHandler_cases action nm h this :
  _registerHandler action nm h this =
  match hget (handlers this) action with
  | EArray bs =>
      match getStoreName nm with
      | Normal n =>
          (Normal tt,
           with_handlers this
             (<[action := EArray (bs ++ [mkBinding n h])]> (handlers this)))
      | Throw e => (Throw e, this)
      end
  | EValue v =>
      if truthy v then
        (Throw TypeError,
         with_handlers this (set (handlers this) action (EValue v)))
      else
        match getStoreName nm with
        | Normal n =>
            (Normal tt,
             with_handlers this
               (<[action := EArray [mkBinding n h]]> (handlers this)))
        | Throw e =>
            (Throw e,
             with_handlers this (<[action := EArray []]> (handlers this)))
        end
  end.
Proof.
  unfold _registerHandler. unfold_M.
  destruct (hget (handlers this) action) as [bs|v] eqn:Hg; simpl.
  - apply hget_array_own in Hg as Hown.
    unfold set. rewrite Hown, hget_insert_eq. simpl.
    destruct (getStoreName nm); simpl.
    + unfold with_handlers; simpl. by rewrite insert_insert_eq.
    + unfold with_handlers; simpl. rewrite insert_id by done. by destruct this.
  - destruct (truthy v) eqn:Hv.
    + by rewrite (hget_set_same _ _ _ Hg).
    + rewrite hget_falsy_set by (by rewrite Hg).
      rewrite hget_insert_eq. simpl. destruct (getStoreName nm); simpl; [|done].
      unfold with_handlers; simpl. by rewrite insert_insert_eq.
Qed.

(** X15.  [_registerHandler(action, name, handler)] writes to nothing
    but the key [action] of the handler table.  Where the key holds an
    array it pushes the one binding behind the bindings there, equal
    ones included; where the key reads falsy it starts an array with
    the binding; where the key reads as something else it throws a
    [TypeError]. *)
Theorem _registerHandler_appends action nm h n this :
  getStoreName nm = Normal n →
  let r := _registerHandler action nm h this in
  stores r.2 = stores this ∧
  domains r.2 = domains this ∧
  (∀ k, k ≠ action → hget (handlers r.2) k = hget (handlers this) k) ∧
  match hget (handlers this) action with
  | EArray bs =>
      r.1 = Normal tt ∧
      hget (handlers r.2) action = EArray (bs ++ [mkBinding n h])
  | EValue v =>
      if truthy v then r.1 = Throw TypeError
      else r.1 = Normal tt ∧
           hget (handlers r.2) action = EArray [mkBinding n h]
  end.
Proof.
  intros Hn r. subst r. rewrite _registerHandler_cases, Hn.
  destruct (hget (handlers this) action) as [bs|v]; [|destruct (truthy v)];
    simpl; repeat split; try done;
    try (intros k Hk; by rewrite ?hget_insert_ne, ?hget_set_ne by done);
    by rewrite hget_insert_eq.
Qed.

(** ** What a registration writes *)

Lemma named_truthy v n :
  getStoreName v = Normal n → truthy_name n = true → truthy v = true.
Proof.
  destruct v as [| | b|z|s|l]; simpl; try done.
  - by intros [= <-].
  - by intros [= <-].
  - by intros [= <-].
Qed.

Lemma set_falsy_insert (o : gmap string value) (k : string) (v : value) :
  truthy (get o k) = false → set o k v = <[k := v]> o.
Proof.
  unfold get, set. destruct (o !! k); [done|].
  case_bool_decide; [by subst k|done].
Qed.

(** The store registry after [registerStore], however it completes:
    as it was, or with the one new entry. *)
Lemma registerStore_stores store this c this' :
  registerStore store this = (c, this') →
  domains this' = domains this ∧
  (stores this' = stores this ∨
   ∃ n, typeof store = TFunction ∧
        getStoreName store = Normal (Some n) ∧
        truthy_name (Some n) = true ∧
        truthy (get (stores this) n) = false ∧
        stores this' = <[n := store]> (stores this)).
Proof.
  rewrite registerStore_unfold.
  case_bool_decide as Hty; [|intros [= _ <-]; auto].
  destruct (getStoreName store) as [[n|]|]; [|intros [= _ <-]; auto..].
  destruct (truthy_name (Some n)) eqn:Ht; [|intros [= _ <-]; auto].
  cbn [key]. destruct (truthy (get (stores this) n)) eqn:Hb.
  { case_bool_decide; intros [= _ <-]; auto. }
  cbv zeta.
  assert (set (stores this) n store = <[n := store]> (stores this)) as Hset.
  { unfold set. unfold get in Hb. destruct (stores this !! n); [done|].
    case_bool_decide; [by subst n|done]. }
  assert (∀ t, stores t = set (stores this) n store →
               domains t = domains this →
               domains t = domains this ∧
               (stores t = stores this ∨
                ∃ n0, typeof store = TFunction ∧
                      Normal (Some n) = Normal (Some n0) ∧
                      truthy_name (Some n0) = true ∧
                      truthy (get (stores this) n0) = false ∧
                      stores t = <[n0 := store]> (stores this))) as Hfin.
  { intros t Hs Hd. split; [done|]. right. exists n. by rewrite Hs, Hset. }
  destruct (prop_handlers store) as [[hs|]|].
  - intros [Hs Hd]%each_handler_frame. by apply Hfin.
  - intros [= _ <-]. by apply Hfin.
  - intros [= _ <-]. by apply Hfin.
Qed.

Lemma registerDomain_domains domain this c this' :
  registerDomain domain this = (c, this') →
  this' = this ∨
  ∃ n, c = Normal tt ∧
       getStoreName domain = Normal (Some n) ∧
       truthy_name (Some n) = true ∧
       truthy (get (domains this) n) = false ∧
       this' = with_domains this (<[n := domain]> (domains this)).
Proof.
  rewrite registerDomain_unfold.
  destruct (getStoreName domain) as [[n|]|]; [|intros [= _ <-]; auto..].
  destruct (truthy_name (Some n)) eqn:Ht; [|intros [= _ <-]; auto].
  cbn [key]. destruct (truthy (get (domains this) n)) eqn:Hb.
  { case_bool_decide; intros [= _ <-]; auto. }
  intros [= <- <-]. right. exists n. repeat split; try done.
  f_equal. unfold set. unfold get in Hb. destruct (domains this !! n); [done|].
  case_bool_decide; [by subst n|done].
Qed.

Lemma get_insert_falsy (o : gmap string value) (n k : string) (v : value) :
  truthy (get o n) = false → truthy (get o k) = true →
  get (<[n := v]> o) k = get o k.
Proof.
  intros Hn Hk. destruct (decide (n = k)) as [->|Hne]; [congruence|].
  unfold get. by rewrite lookup_insert_ne.
Qed.

(** A name that reads as bound is never bound anew. *)
Lemma registerStore_keeps_bound store this c this' k :
  registerStore store this = (c, this') →
  truthy (get (stores this) k) = true →
  get (stores this') k = get (stores this) k.
Proof.
  intros [_ [->|(n & _ & _ & _ & Hfree & ->)]]%registerStore_stores Hk; [done|].
  by apply get_insert_falsy.
Qed.

Lemma registerDomain_keeps_bound domain this c this' k :
  registerDomain domain this = (c, this') →
  truthy (get (domains this) k) = true →
  get (domains this') k = get (domains this) k.
Proof.
  intros [->|(n & _ & _ & _ & Hfree & ->)]%registerDomain_domains Hk; [done|].
  by apply get_insert_falsy.
Qed.

(** ** Domain registration *)

Lemma reachable_domains_truthy this k v :
  reachable this → domains this !! k = Some v → truthy v = true.
Proof.
  intros Hreach. revert k v.
  induction Hreach as [|store this c this' _ IH H|domain this c this' _ IH H];
    intros k v.
  - change (domains init) with (∅ : gmap string value). by rewrite lookup_empty.
  - apply registerStore_stores in H as [-> _]. apply IH.
  - apply registerDomain_domains in H
      as [->|(n & _ & Hn & Ht & _ & ->)]; [apply IH|].
    simpl. destruct (decide (n = k)) as [<-|Hne].
    + rewrite lookup_insert_eq. intros [= <-]. by apply (named_truthy _ _ Hn).
    + rewrite lookup_insert_ne by done. apply IH.
Qed.

(** C4, as the code has it.  [registerDomain] applies the missing-name
    and duplicate policy of [registerStore] but checks no type: every
    argument that resolves to a name, be it a string, an object or a
    function, is treated alike.  A falsy name is the missing-name
    error.  For a truthy name that is no property name of
    [Object.prototype], on a dispatcher that a program can come by: a
    name without an entry in the domain registry is bound to the
    argument, in the domain registry only; a name whose entry is the
    identical value is left alone; a name whose entry is another value
    is the duplicate-domain error. *)
Theorem registerDomain_policy domain n this :
  reachable this →
  getStoreName domain = Normal n →
  key n ∉ Object_prototype_names →
  (truthy_name n = false →
   registerDomain domain this = (Throw missing_name, this)) ∧
  (truthy_name n = true → domains this !! key n = None →
   ∃ this', registerDomain domain this = (Normal tt, this') ∧
            domains this' = <[key n := domain]> (domains this) ∧
            stores this' = stores this ∧
            handlers this' = handlers this) ∧
  (truthy_name n = true → domains this !! key n = Some domain →
   registerDomain domain this = (Normal tt, this)) ∧
  (truthy_name n = true →
   ∀ v, domains this !! key n = Some v → v ≠ domain →
        registerDomain domain this
        = (Throw (duplicate_domain (key n)), this)).
Proof.
  intros Hreach Hn Hk. rewrite registerDomain_unfold, Hn.
  split; [by intros ->|]. split; [|split].
  - intros -> Hown. unfold get, set. rewrite Hown.
    unfold Object_prototype. rewrite bool_decide_eq_false_2 by done. simpl.
    rewrite bool_decide_eq_false_2.
    + by eexists.
    + intros Hp. apply Hk. rewrite Hp. by apply (bool_decide_unpack _).
  - intros Ht Hown. rewrite Ht. unfold get. rewrite Hown.
    rewrite (named_truthy _ _ Hn Ht). by rewrite bool_decide_eq_true_2.
  - intros -> v Hown Hne. unfold get. rewrite Hown.
    rewrite (reachable_domains_truthy _ _ _ Hreach Hown).
    by rewrite bool_decide_eq_false_2.
Qed.

(** X3.  A registration stays: once [isRegistered(v)] returns true it
    returns true after any further call of [registerStore] or
    [registerDomain], whether that call returns or throws. *)
Theorem isRegistered_permanent v w this c this' :
  isRegistered v this = (Normal true, this) →
  registerStore w this = (c, this') ∨ registerDomain w this = (c, this') →
  isRegistered v this' = (Normal true, this').
Proof.
  unfold isRegistered. unfold_M.
  destruct (getStoreName v) as [n|]; [|done]. simpl.
  intros Hreg Hstep.
  assert (get (stores this') (key n) = get (stores this) (key n)) as ->.
  { destruct (truthy (get (stores this) (key n))) eqn:Hb; [|done].
    destruct Hstep as [H|H].
    - by apply (registerStore_keeps_bound _ _ _ _ _ H).
    - apply registerDomain_writes_domains in H as [-> _]. done. }
  destruct (negb _); [done|]. by destruct (_ && _).
Qed.

(** X4.  Two classes under one name: after [registerStore(A)] has
    completed, [registerStore(B)] for any other constructor [B] that
    resolves to the same name throws the duplicate-registration error
    with that name, and the dispatcher stays as [A] left it. *)
Theorem registerStore_collision A B this this' :
  registerStore A this = (Normal tt, this') →
  typeof B = TFunction →
  B ≠ A →
  getStoreName B = getStoreName A →
  ∃ n, getStoreName A = Normal (Some n) ∧
       registerStore B this' = (Throw (duplicate_store n), this').
Proof.
  intros (n & Hn & Ht & Hty & Hget & _)%registerStore_normal HB Hne Hsame.
  exists n. split; [done|].
  rewrite registerStore_unfold, bool_decide_eq_true_2, Hsame, Hn, Ht by done.
  cbn [key]. rewrite Hget, (typeof_function_truthy _ Hty).
  by rewrite bool_decide_eq_false_2.
Qed.

Lemma registerDomain_normal domain this this' :
  registerDomain domain this = (Normal tt, this') →
  ∃ n, getStoreName domain = Normal (Some n) ∧
       truthy_name (Some n) = true ∧
       get (domains this') n = domain.
Proof.
  rewrite registerDomain_unfold.
  destruct (getStoreName domain) as [[n|]|]; [|done..].
  destruct (truthy_name (Some n)) eqn:Ht; [|done].
  cbn [key]. intros H. exists n.
  destruct (truthy (get (domains this) n)) eqn:Hb.
  - case_bool_decide; [|done]. by injection H as <-.
  - injection H as <-. repeat split; try done. by apply get_set_falsy.
Qed.

(** X5.  [registerDomain] has the duplicate policy of [registerStore]:
    after [registerDomain(D)] has completed, the same call completes
    again and changes nothing, and [registerDomain(D')] for any other
    value that resolves to the same name throws the duplicate error
    with that name and changes nothing. *)
Theorem registerDomain_duplicates D this this' :
  registerDomain D this = (Normal tt, this') →
  registerDomain D this' = (Normal tt, this') ∧
  ∀ D', D' ≠ D → getStoreName D' = getStoreName D →
        ∃ n, getStoreName D = Normal (Some n) ∧
             registerDomain D' this' = (Throw (duplicate_domain n), this').
Proof.
  intros (n & Hn & Ht & Hget)%registerDomain_normal.
  pose proof (named_truthy _ _ Hn Ht) as HD.
  split.
  - rewrite registerDomain_unfold, Hn, Ht. cbn [key]. rewrite Hget, HD.
    by rewrite bool_decide_eq_true_2.
  - intros D' Hne Hsame. exists n. split; [done|].
    rewrite registerDomain_unfold, Hsame, Hn, Ht. cbn [key]. rewrite Hget, HD.
    by rewrite bool_decide_eq_false_2.
Qed.

(** X6.  The ways [registerDomain] fails, none of which writes: a
    [TypeError] on [null] and [undefined], the missing-name error on a
    value without a truthy name, and the duplicate error on a name
    that is bound to another value. *)
Theorem registerDomain_errors domain this e this' :
  registerDomain domain this = (Throw e, this') →
  this' = this ∧
  ((e = TypeError ∧ nullish domain = true) ∨
   (e = missing_name ∧
    ∃ n, getStoreName domain = Normal n ∧ truthy_name n = false) ∨
   (∃ n, e = duplicate_domain n ∧
         getStoreName domain = Normal (Some n) ∧
         truthy (get (domains this) n) = true ∧
         get (domains this) n ≠ domain)).
Proof.
  rewrite registerDomain_unfold.
  pose proof (getStoreName_nullish domain) as Hres.
  destruct (getStoreName domain) as [n|e0].
  - destruct (truthy_name n) eqn:Ht.
    + destruct n as [n|]; [|done]. cbn [key].
      destruct (truthy (get (domains this) n)) eqn:Hb; [|done].
      case_bool_decide as Heq; [done|]. intros [= <- <-].
      split; [done|]. right. right. by exists n.
    + intros [= <- <-]. split; [done|]. right. left. split; [done|]. by exists n.
  - destruct Hres as [-> Hnull]. intros [= <- <-]. split; [done|]. by left.
Qed.

(** ** The failures of [registerStore] *)

Lemma reachable_own_arrays this : reachable this → own_arrays (handlers this).
Proof.
  induction 1 as [|store this c this' _ IH H|domain this c this' _ IH H].
  - apply own_arrays_init.
  - by apply (registerStore_own_arrays _ _ _ _ IH H).
  - apply registerDomain_writes_domains in H as [_ ->]. done.
Qed.

Lemma each_handler_throws n hs ks this e this' :
  own_arrays (handlers this) →
  forEach ks (each_handler n hs) this = (Throw e, this') →
  e = TypeError ∧ ∃ k, k ∈ ks ∧ k ∈ Object_prototype_names.
Proof.
  revert this. induction ks as [|a ks IH]; intros this Hh; [done|].
  rewrite forEach_cons.
  change (each_handler n hs a) with (_registerHandler a (VStr n) (prop hs a)).
  rewrite _registerHandler_spec.
  assert (∀ t, own_arrays (handlers t) →
               forEach ks (each_handler n hs) t = (Throw e, this') →
               e = TypeError ∧ ∃ k, k ∈ a :: ks ∧ k ∈ Object_prototype_names)
    as Hrest.
  { intros t Ht H. destruct (IH _ Ht H) as (-> & k & Hk & Hp).
    split; [done|]. exists k. split; [|done]. apply elem_of_cons. auto. }
  destruct (hget (handlers this) a) as [bs|v] eqn:Hg;
    [|destruct (truthy v) eqn:Hv].
  - apply Hrest. by apply own_arrays_insert_array.
  - intros [= <- _]. split; [done|]. exists a.
    split; [apply elem_of_cons; by left|].
    unfold hget in Hg. destruct (handlers this !! a) eqn:Hown.
    + subst. by apply (Hh a v).
    + injection Hg as <-. unfold Object_prototype in Hv. by case_bool_decide.
  - apply Hrest. by apply own_arrays_insert_array.
Qed.

(** X7.  The ways [registerStore] fails, in the order it checks: the
    invalid-store error on anything but a function, the missing-name
    error on a constructor without a truthy name, the duplicate error
    on a name that is bound to another value -- none of which writes --
    and a [TypeError] out of the loop over the handler map, which can
    only come from a key that is a property name of
    [Object.prototype] and which leaves the store bound. *)
Theorem registerStore_errors store this e this' :
  reachable this →
  registerStore store this = (Throw e, this') →
  (e = invalid_store ∧ typeof store ≠ TFunction ∧ this' = this) ∨
  (e = missing_name ∧ typeof store = TFunction ∧
   (∃ n, getStoreName store = Normal n ∧ truthy_name n = false) ∧
   this' = this) ∨
  (∃ n, e = duplicate_store n ∧ typeof store = TFunction ∧
        getStoreName store = Normal (Some n) ∧
        truthy (get (stores this) n) = true ∧
        get (stores this) n ≠ store ∧
        this' = this) ∨
  (e = TypeError ∧
   ∃ n hs k, getStoreName store = Normal (Some n) ∧
             get (stores this') n = store ∧
             prop_handlers store = Normal (Some hs) ∧
             k ∈ Object_keys hs ∧ k ∈ Object_prototype_names).
Proof.
  intros Hreach%reachable_own_arrays. rewrite registerStore_unfold.
  case_bool_decide as Hty; [|intros [= <- <-]; by left].
  destruct (getStoreName_function _ Hty) as (l & -> & Hh).
  pose proof (getStoreName_nullish (VRef l)) as Hres.
  destruct (getStoreName (VRef l)) as [n|e0]; [|by destruct Hres].
  destruct (truthy_name n) eqn:Ht.
  2:{ intros [= <- <-]. right. left. repeat split; try done. by exists n. }
  destruct n as [n|]; [|done]. cbn [key].
  destruct (truthy (get (stores this) n)) eqn:Hb.
  { case_bool_decide as Heq; [done|]. intros [= <- <-].
    right. right. left. by exists n. }
  cbv zeta. rewrite Hh. destruct (obj_handlers (heap l)) as [hs|]; [|done].
  intros H. right. right. right.
  pose proof (each_handler_frame _ _ _ _ _ _ H) as [Hs _].
  apply each_handler_throws in H as (-> & k & Hk & Hp); [|done].
  split; [done|]. exists n, hs, k. repeat split; try done.
  rewrite Hs. simpl. by apply get_set_falsy.
Qed.

(** X8.  On a dispatcher that a program can come by, [registerStore]
    completes for every constructor with a truthy name that does not
    read as bound, provided no key of its handler map is a property
    name of [Object.prototype]; the name is then bound to the
    constructor. *)
Theorem registerStore_succeeds store n this :
  reachable this →
  typeof store = TFunction →
  getStoreName store = Normal (Some n) →
  truthy_name (Some n) = true →
  truthy (get (stores this) n) = false →
  (∀ hs, prop_handlers store = Normal (Some hs) →
         Forall (λ k, k ∉ Object_prototype_names) (Object_keys hs)) →
  ∃ this', registerStore store this = (Normal tt, this') ∧
           get (stores this') n = store ∧
           reachable this'.
Proof.
  intros Hreach Hty Hn Ht Hfree Hkeys.
  destruct (registerStore_completes store n this) as (this' & H & Hget);
    try done; [by apply reachable_own_arrays|].
  exists this'. repeat split; try done. by eapply reachable_registerStore.
Qed.

Lemma each_handler_untouched n hs ks this c this' (k : string) :
  k ∉ ks →
  forEach ks (each_handler n hs) this = (c, this') →
  hget (handlers this') k = hget (handlers this) k.
Proof.
  revert this. induction ks as [|a ks IH]; intros this.
  - by intros _ [= _ <-].
  - intros [Hne Hk]%not_elem_of_cons. rewrite forEach_cons.
    change (each_handler n hs a) with (_registerHandler a (VStr n) (prop hs a)).
    rewrite _registerHandler_spec.
    destruct (hget (handlers this) a) as [bs|v]; [|destruct (truthy v)].
    + intros H. rewrite (IH _ Hk H). simpl. by rewrite hget_insert_ne.
    + intros [= _ <-]. simpl. by rewrite hget_set_ne.
    + intros H. rewrite (IH _ Hk H). simpl. by rewrite hget_insert_ne.
Qed.

(** X9.  [registerStore], however it completes, leaves alone every
    action of the handler table that is no key of the handler map of
    the store (all of them, where the store has no handler map). *)
Theorem registerStore_other_actions store this c this' (a : string) :
  registerStore store this = (c, this') →
  (∀ hs, prop_handlers store = Normal (Some hs) → a ∉ Object_keys hs) →
  hget (handlers this') a = hget (handlers this) a.
Proof.
  rewrite registerStore_unfold. intros H Ha.
  case_bool_decide; [|by injection H as _ <-].
  destruct (getStoreName store) as [n|]; [|by injection H as _ <-].
  destruct (truthy_name n); [|by injection H as _ <-].
  destruct (truthy _); [case_bool_decide; by injection H as _ <-|].
  cbv zeta in H. destruct (prop_handlers store) as [[hs|]|];
    [|by injection H as _ <-..].
  by rewrite (each_handler_untouched _ _ _ _ _ _ a (Ha hs eq_refl) H).
Qed.

(** ** Invariants of the tables *)

(** X10.  In every dispatcher that a program can come by, each entry
    of the store registry is a constructor, filed under the truthy
    name that [getStoreName] resolves it to. *)
Theorem reachable_stores_named this : reachable this → stores_named this.
Proof.
  induction 1 as [|store this c this' _ IH H|domain this c this' _ IH H];
    unfold stores_named in *.
  - intros k v. change (stores init) with (∅ : gmap string value).
    by rewrite lookup_empty.
  - apply registerStore_stores in H
      as [_ [->|(n & Hty & Hn & Ht & _ & ->)]]; [done|].
    intros k v. destruct (decide (n = k)) as [<-|Hne].
    + rewrite lookup_insert_eq. by intros [= <-].
    + rewrite lookup_insert_ne by done. apply IH.
  - apply registerDomain_writes_domains in H as [-> _]. done.
Qed.

(** X11.  In every dispatcher that a program can come by, each entry
    of the domain registry is filed under the truthy name that
    [getStoreName] resolves it to. *)
Theorem reachable_domains_named this : reachable this → domains_named this.
Proof.
  induction 1 as [|store this c this' _ IH H|domain this c this' _ IH H];
    unfold domains_named in *.
  - intros k v. change (domains init) with (∅ : gmap string value).
    by rewrite lookup_empty.
  - apply registerStore_stores in H as [-> _]. done.
  - apply registerDomain_domains in H
      as [->|(n & _ & Hn & Ht & _ & ->)]; [done|].
    intros k v. simpl. destruct (decide (n = k)) as [<-|Hne].
    + rewrite lookup_insert_eq. by intros [= <-].
    + rewrite lookup_insert_ne by done. apply IH.
Qed.

Lemma each_handler_bindings (Q : option string → Prop) n hs ks this c this' :
  (∀ a bs b, handlers this !! a = Some (EArray bs) → b ∈ bs → Q (name b)) →
  Q (Some n) →
  forEach ks (each_handler n hs) this = (c, this') →
  ∀ a bs b, handlers this' !! a = Some (EArray bs) → b ∈ bs → Q (name b).
Proof.
  intros HP HQ. revert this HP. induction ks as [|k ks IH]; intros this HP.
  - by intros [= _ <-].
  - rewrite forEach_cons.
    change (each_handler n hs k) with (_registerHandler k (VStr n) (prop hs k)).
    rewrite _registerHandler_spec.
    destruct (hget (handlers this) k) as [bs0|v] eqn:Hg;
      [|destruct (truthy v)].
    + apply IH. simpl. intros a bs b.
      destruct (decide (k = a)) as [<-|Hne].
      * rewrite lookup_insert_eq. intros [= <-] [Hb|Hb]%elem_of_app.
        -- apply hget_array_own in Hg. by apply (HP k bs0 b).
        -- apply list_elem_of_singleton in Hb. by subst b.
      * rewrite lookup_insert_ne by done. apply HP.
    + intros [= _ <-]. simpl. intros a bs b. unfold set.
      destruct (handlers this !! k) eqn:Hown; [|case_bool_decide; [apply HP|]];
        (destruct (decide (k = a)) as [<-|Hne];
         [by rewrite lookup_insert_eq|rewrite lookup_insert_ne by done; apply HP]).
    + apply IH. simpl. intros a bs b.
      destruct (decide (k = a)) as [<-|Hne].
      * rewrite lookup_insert_eq. intros [= <-] Hb.
        apply list_elem_of_singleton in Hb. by subst b.
      * rewrite lookup_insert_ne by done. apply HP.
Qed.

(** X12.  In every dispatcher that a program can come by, every
    binding in the handler table carries the name of an entry of the
    store registry: no handler is left for a store that is not
    there, not even by a registration that throws half way. *)
Theorem reachable_bindings_registered this :
  reachable this → bindings_registered this.
Proof.
  induction 1 as [|store this c this' _ IH H|domain this c this' _ IH H];
    unfold bindings_registered in *.
  - intros a bs b.
    change (handlers init) with (<[DEFAULT := EArray []]> (∅ : gmap string entry)).
    destruct (decide (DEFAULT = a)) as [<-|Hne].
    + rewrite lookup_insert_eq. intros [= <-]. by intros ?%elem_of_nil.
    + by rewrite lookup_insert_ne, lookup_empty.
  - rewrite registerStore_unfold in H.
    case_bool_decide; [|by injection H as _ <-].
    destruct (getStoreName store) as [[n|]|]; [|by injection H as _ <-..].
    destruct (truthy_name (Some n)); [|by injection H as _ <-].
    cbn [key] in H. destruct (truthy (get (stores this) n)) eqn:Hb.
    { case_bool_decide; by injection H as _ <-. }
    cbv zeta in H. rewrite set_falsy_insert in H by done.
    set (this1 := with_stores this (<[n := store]> (stores this))) in H.
    assert (stores this' = stores this1) as Hst.
    { destruct (prop_handlers store) as [[hs|]|];
        [by apply each_handler_frame in H as [-> _]|by injection H as _ <-..]. }
    assert (∀ a bs b, handlers this1 !! a = Some (EArray bs) → b ∈ bs →
                      ∃ s, name b = Some s ∧ is_Some (stores this' !! s))
      as HP.
    { intros a bs b Ha Hin. destruct (IH a bs b Ha Hin) as (s & Hs & Hsome).
      exists s. split; [done|]. rewrite Hst. simpl.
      destruct (decide (n = s)) as [<-|Hne];
        [by rewrite lookup_insert_eq|by rewrite lookup_insert_ne]. }
    destruct (prop_handlers store) as [[hs|]|].
    + apply (each_handler_bindings
               (λ nm, ∃ s, nm = Some s ∧ is_Some (stores this' !! s))
               n hs (Object_keys hs) this1 c this'); [exact HP| |exact H].
      exists n. rewrite Hst. simpl. by rewrite lookup_insert_eq.
    + injection H as _ <-. exact HP.
    + injection H as _ <-. exact HP.
  - apply registerDomain_writes_domains in H as [-> ->]. done.
Qed.

(** X16.  [isRegistered] reads the store registry through
    [Object.prototype]: on a new dispatcher [isRegistered(k)] returns
    true for a string [k] exactly when [k] is a property name of
    [Object.prototype], and for these names it returns true on every
    dispatcher that a program can come by. *)
Theorem isRegistered_inherited_name :
  (∀ k, isRegistered (VStr k) init
        = (Normal (bool_decide (k ∈ Object_prototype_names)), init)) ∧
  (∀ this k, reachable this → k ∈ Object_prototype_names →
             isRegistered (VStr k) this = (Normal true, this)).
Proof.
  split.
  - intros k. unfold isRegistered. unfold_M.
    change (stores init) with (∅ : gmap string value).
    rewrite get_empty. unfold Object_prototype. by case_bool_decide.
  - intros this k Hreach%reachable_stores_named Hk.
    unfold isRegistered. unfold_M.
    assert (truthy (get (stores this) k) = true) as ->; [|done].
    unfold get. destruct (stores this !! k) as [v|] eqn:Hown.
    + destruct (Hreach k v Hown) as (Hty & _). by apply typeof_function_truthy.
    + unfold Object_prototype. by rewrite bool_decide_eq_true_2.
Qed.

(** ** The constructor *)

Lemma forEach_registerStore_bound ss this this' :
  forEach ss registerStore this = (Normal tt, this') →
  domains this' = domains this ∧
  (∀ k, truthy (get (stores this) k) = true →
        get (stores this') k = get (stores this) k) ∧
  ∀ s, s ∈ ss →
       ∃ n, getStoreName s = Normal (Some n) ∧
            typeof s = TFunction ∧
            get (stores this') n = s.
Proof.
  revert this. induction ss as [|s0 ss IH]; intros this.
  - intros [= <-]. repeat split; try done. by intros s ?%elem_of_nil.
  - rewrite forEach_cons.
    destruct (registerStore s0 this) as [[[]|e] this1] eqn:H1; [|done].
    intros (Hd & Hkeep & Hall)%IH.
    pose proof (registerStore_stores _ _ _ _ H1) as [Hd1 _].
    split; [congruence|]. split.
    + intros k Hk.
      rewrite <- (registerStore_keeps_bound _ _ _ _ k H1 Hk) in Hk |- *.
      by apply Hkeep.
    + intros s [->|Hin]%elem_of_cons; [|by apply Hall].
      destruct (registerStore_normal _ _ _ H1) as (n & Hn & _ & Hty & Hget & _).
      exists n. repeat split; try done.
      rewrite Hkeep; [done|]. by rewrite Hget, (typeof_function_truthy _ Hty).
Qed.

Lemma forEach_registerDomain_bound ds this this' :
  forEach ds registerDomain this = (Normal tt, this') →
  stores this' = stores this ∧
  (∀ k, truthy (get (domains this) k) = true →
        get (domains this') k = get (domains this) k) ∧
  ∀ d, d ∈ ds →
       ∃ n, getStoreName d = Normal (Some n) ∧ get (domains this') n = d.
Proof.
  revert this. induction ds as [|d0 ds IH]; intros this.
  - intros [= <-]. repeat split; try done. by intros d ?%elem_of_nil.
  - rewrite forEach_cons.
    destruct (registerDomain d0 this) as [[[]|e] this1] eqn:H1; [|done].
    intros (Hs & Hkeep & Hall)%IH.
    pose proof (registerDomain_writes_domains _ _ _ _ H1) as [Hs1 _].
    split; [congruence|]. split.
    + intros k Hk.
      rewrite <- (registerDomain_keeps_bound _ _ _ _ k H1 Hk) in Hk |- *.
      by apply Hkeep.
    + intros d [->|Hin]%elem_of_cons; [|by apply Hall].
      destruct (registerDomain_normal _ _ _ H1) as (n & Hn & Ht & Hget).
      exists n. split; [done|].
      rewrite Hkeep; [done|]. by rewrite Hget, (named_truthy _ _ Hn Ht).
Qed.

Lemma forEach_registerStore_domains ss this c this' :
  forEach ss registerStore this = (c, this') → domains this' = domains this.
Proof.
  revert this. induction ss as [|s ss IH]; intros this.
  - by intros [= _ <-].
  - rewrite forEach_cons.
    destruct (registerStore s this) as [c1 this1] eqn:H1.
    apply registerStore_stores in H1 as [<- _].
    destruct c1; [apply IH|by intros [= _ <-]].
Qed.

Lemma construct_registers (o : option options) (this : Dispatcher) :
  construct o = (Normal tt, this) →
  (∀ s, s ∈ default [] (o ≫= opt_stores) →
        isRegistered s this = (Normal true, this)) ∧
  (∀ d, d ∈ default [] (o ≫= opt_domains) →
        ∃ n, getStoreName d = Normal (Some n) ∧ get (domains this) n = d).
Proof.
  unfold construct. unfold_M.
  replace (default [] (opt_stores (default (mkOptions None None) o)))
    with (default [] (o ≫= opt_stores)) by by destruct o.
  replace (default [] (opt_domains (default (mkOptions None None) o)))
    with (default [] (o ≫= opt_domains)) by by destruct o.
  destruct (forEach _ registerStore init) as [[[]|e] this1] eqn:H1; [|done].
  apply forEach_registerStore_bound in H1 as (_ & _ & Hstores).
  intros (Hs & _ & Hdomains)%forEach_registerDomain_bound.
  split; [|done]. intros s (n & Hn & Hty & Hget)%Hstores.
  unfold isRegistered. unfold_M. rewrite Hn. simpl. rewrite Hs, Hget.
  rewrite (typeof_function_truthy _ Hty). simpl.
  by rewrite !bool_decide_eq_true_2.
Qed.

(** X13.  A dispatcher that [createDispatcher] returns has everything
    registered that it was given: [isRegistered] returns true for each
    store of the options, and each domain of the options is bound to
    its name in the domain registry. *)
Theorem createDispatcher_registers_all (o : option options) (this : Dispatcher) :
  createDispatcher o = Normal this →
  (∀ s, s ∈ default [] (o ≫= opt_stores) →
        isRegistered s this = (Normal true, this)) ∧
  (∀ d, d ∈ default [] (o ≫= opt_domains) →
        ∃ n, getStoreName d = Normal (Some n) ∧ get (domains this) n = d).
Proof.
  unfold createDispatcher.
  destruct (construct o) as [[[]|e] this1] eqn:H; [|done].
  intros [= <-]. by apply construct_registers.
Qed.

(** X14.  The constructor registers the stores before the domains and
    stops at the first registration that throws: where the stores
    alone make it throw, it throws the same error with any domains
    added to the options, and no domain has been registered. *)
Theorem construct_stores_first ss e this :
  construct (Some (mkOptions ss None)) = (Throw e, this) →
  domains this = ∅ ∧
  ∀ ds, construct (Some (mkOptions ss ds)) = (Throw e, this).
Proof.
  unfold construct. unfold_M.
  destruct (forEach (default [] ss) registerStore init) as [[[]|e1] this1] eqn:H1;
    [done|].
  intros [= <- <-]. split; [|done].
  by apply forEach_registerStore_domains in H1.
Qed.

End Dispatcher.

(** * The registry on a host program *)

(** ** Defects of the code *)

(** C1.  [class S] is a constructor, resolves to the truthy name
    ["S"], and no store is bound to that name in a new dispatcher:
    none of the three conditions for an error holds.  Still
    [registerStore(S)] throws: its handler map has the key [toString],
    which the handler table, an object literal, inherits from
    [Object.prototype], so that [_registerHandler] calls [push] on a
    function. *)
Theorem registerStore_inherited_action_throws :
  typeof example_heap (VRef (Alloc 3)) = TFunction ∧
  getStoreName example_heap (VRef (Alloc 3)) = Normal (Some "S") ∧
  truthy_name (Some "S") = true ∧
  get (stores init) "S" = VUndefined ∧
  (registerStore example_heap (VRef (Alloc 3)) init).1 = Throw TypeError.
Proof. repeat split; reflexivity. Qed.

(** The same inheritance makes a name that nothing was registered
    under read as bound: to the member of [Object.prototype], which
    then passes for registered, and against every other class. *)
Lemma registerStore_inherited_name :
  registerStore example_heap (VRef (Builtin "toString")) init
  = (Normal tt, init) ∧
  ∀ store,
    typeof example_heap store = TFunction →
    getStoreName example_heap store = Normal (Some "constructor") →
    store ≠ VRef (Builtin "constructor") →
    registerStore example_heap store init
    = (Throw (duplicate_store "constructor"), init).
Proof.
  split; [reflexivity|]. intros store Hty Hn Hne.
  rewrite registerStore_unfold, bool_decide_eq_true_2, Hn by done.
  cbn. by rewrite bool_decide_eq_false_2.
Qed.

(** C7.  The failing call of [registerStore(S)] above has written to
    the dispatcher before it throws: ["S"] is bound in the store
    registry and the handler table has an own key [toString]. *)
Theorem registerStore_failure_writes :
  let r := registerStore example_heap (VRef (Alloc 3)) init in
  r.1 = Throw TypeError ∧
  stores init !! "S" = None ∧
  stores r.2 !! "S" = Some (VRef (Alloc 3)) ∧
  handlers init !! "toString" = None ∧
  handlers r.2 !! "toString" = Some (EValue (VRef (Builtin "toString"))) ∧
  r.2 ≠ init.
Proof.
  repeat split; try reflexivity.
  intros H. apply (f_equal (λ d, stores d !! "S")) in H.
  vm_compute in H. discriminate.
Qed.

(** What C7 says does hold of [registerDomain], and of the errors that
    [registerStore] throws itself. *)
Lemma registerDomain_failure_writes_nothing heap domain this e this' :
  registerDomain heap domain this = (Throw e, this') → this' = this.
Proof.
  rewrite registerDomain_unfold.
  destruct (getStoreName heap domain) as [n|]; [|by intros [= _ <-]].
  destruct (truthy_name n); [|by intros [= _ <-]].
  destruct (truthy _); [|done].
  case_bool_decide; [done|by intros [= _ <-]].
Qed.

Lemma registerStore_Error_writes_nothing heap store this msg this' :
  registerStore heap store this = (Throw (Error msg), this') → this' = this.
Proof.
  rewrite registerStore_unfold.
  case_bool_decide as Hty; [|by intros [= _ <-]].
  destruct (getStoreName_function heap _ Hty) as (l & -> & Hh).
  destruct (getStoreName heap (VRef l)) as [[n|]|]; [|by intros [= _ <-]..].
  destruct (truthy_name (Some n)); [|by intros [= _ <-]].
  destruct (truthy _); [case_bool_decide; [done|by intros [= _ <-]]|].
  cbv zeta. rewrite Hh. destruct (obj_handlers (heap l)) as [hs|]; [|done].
  generalize (with_stores this (set (stores this) (key (Some n)) (VRef l))).
  induction (Object_keys hs) as [|a ks IH]; intros t; [done|].
  rewrite forEach_cons.
  change (each_handler heap (key (Some n)) hs a)
    with (_registerHandler heap a (VStr n) (prop hs a)).
  rewrite _registerHandler_spec.
  destruct (hget (handlers t) a) as [bs|v]; [|destruct (truthy v)];
    [|done|]; intros H; by apply IH in H.
Qed.

(** C9.  Not every name can be registered in both name spaces.  A
    constructor named ["constructor"] is a store and a domain that a
    new dispatcher has no entry for, yet [registerStore] and
    [registerDomain] both throw their duplicate-registration error on
    it: the two registries are object literals that inherit the key
    from [Object.prototype].  And the lookup of the domain name space
    sees nothing: [isRegisteredDomain] throws on a name that
    [registerDomain] has bound. *)
Theorem namespaces_inherited_name :
  typeof example_heap_constructor (VRef (Alloc 6)) = TFunction ∧
  getStoreName example_heap_constructor (VRef (Alloc 6))
  = Normal (Some "constructor") ∧
  stores init !! "constructor" = None ∧
  domains init !! "constructor" = None ∧
  registerStore example_heap_constructor (VRef (Alloc 6)) init
  = (Throw (duplicate_store "constructor"), init) ∧
  registerDomain example_heap_constructor (VRef (Alloc 6)) init
  = (Throw (duplicate_domain "constructor"), init) ∧
  get (domains (registerDomain example_heap_constructor (VRef (Alloc 1)) init).2)
      "A" = VRef (Alloc 1) ∧
  (isRegisteredDomain example_heap_constructor example_global (VStr "A")
     (registerDomain example_heap_constructor (VRef (Alloc 1)) init).2).1
  = Throw ReferenceError.
Proof. repeat split; reflexivity. Qed.

(** C5.  [isRegisteredDomain] throws where the domain is registered
    (and the claim has it return true) as well as where it is not: it
    reads the undeclared identifier [storeName]. *)
Theorem isRegisteredDomain_never_returns :
  let this := (registerDomain example_heap (VRef (Alloc 1)) init).2 in
  get (domains this) "A" = VRef (Alloc 1) ∧
  isRegisteredDomain example_heap example_global (VRef (Alloc 1)) this
  = (Throw ReferenceError, this) ∧
  isRegisteredDomain example_heap example_global (VStr "A") this
  = (Throw ReferenceError, this) ∧
  isRegisteredDomain example_heap example_global (VStr "B") this
  = (Throw ReferenceError, this).
Proof. repeat split; reflexivity. Qed.

(** ** Instances *)

(** [registerDomain("A")] on a new dispatcher: the argument is no
    function, and the call completes, binding ["A"] to the string. *)
Lemma registerDomain_accepts_string :
  typeof example_heap (VStr "A") ≠ TFunction ∧
  registerDomain example_heap (VStr "A") init
  = (Normal tt, with_domains init {["A" := VStr "A"]}).
Proof. split; [discriminate|reflexivity]. Qed.

(** The plain object [{storeName: "A"}] as a domain. *)
Lemma registerDomain_policy_witness :
  ∃ this',
    registerDomain example_heap (VRef (Alloc 4)) init = (Normal tt, this') ∧
    domains this' = <["A" := VRef (Alloc 4)]> (domains init) ∧
    stores this' = stores init ∧
    handlers this' = handlers init.
Proof.
  refine (proj1 (proj2
    (registerDomain_policy example_heap (VRef (Alloc 4)) (Some "A") init
       (reachable_init example_heap) eq_refl _)) eq_refl eq_refl).
  by apply (bool_decide_unpack _).
Defined.

(** [class A] then [function S2] on a new dispatcher. *)
Lemma handler_order_witness :
  hget (handlers
          (registerStore example_heap (VRef (Alloc 2))
             (registerStore example_heap (VRef (Alloc 0)) init).2).2) "foo"
  = EArray [mkBinding (Some "A") (VStr "onFoo");
            mkBinding (Some "S2") (VStr "onFooToo")].
Proof.
  apply (handler_order example_heap 0 2 "foo" (VStr "onFoo") (VStr "onFooToo")
           (Some "A") (Some "S2")
           (registerStore example_heap (VRef (Alloc 0)) init).2);
    [lia | reflexivity..].
Defined.

(** [class A] registered twice on a new dispatcher. *)
Lemma reregistration_idempotent_witness :
  let this' := (registerStore example_heap (VRef (Alloc 0)) init).2 in
  registerStore example_heap (VRef (Alloc 0)) this' = (Normal tt, this') ∧
  hget (handlers this') "foo" = EArray [mkBinding (Some "A") (VStr "onFoo")].
Proof.
  intros this'.
  destruct (reregistration_idempotent example_heap (VRef (Alloc 0)) init this'
              eq_refl) as [Hagain Hone].
  split; [exact Hagain|].
  apply (Hone "A" [("foo", VStr "onFoo")] "foo" (VStr "onFoo")).
  all: try reflexivity.
  - apply NoDup_singleton.
  - apply list_elem_of_singleton. reflexivity.
Defined.

(** [class A] registered; the class at [Alloc 1] claims the same name. *)
Lemma isRegistered_reference_aware_witness :
  let this' := (registerStore example_heap (VRef (Alloc 0)) init).2 in
  isRegistered example_heap (VStr "A") this' = (Normal true, this') ∧
  isRegistered example_heap (VRef (Alloc 0)) this' = (Normal true, this') ∧
  isRegistered example_heap (VRef (Alloc 1)) this' = (Normal false, this').
Proof.
  intros this'.
  destruct (isRegistered_reference_aware example_heap (VRef (Alloc 0)) "A"
              init this' eq_refl eq_refl) as (Hname & Hsame & Hother).
  split; [exact Hname|]. split; [exact Hsame|].
  apply Hother; [reflexivity|discriminate|reflexivity].
Defined.

(** [class A] as a store and the class at [Alloc 1] as a domain, both
    under the name ["A"]. *)
Lemma namespaces_independent_witness :
  let thisS := (registerStore example_heap (VRef (Alloc 0)) init).2 in
  let thisD := (registerDomain example_heap (VRef (Alloc 1)) init).2 in
  let both := mkDispatcher (stores thisS) (domains thisD) (handlers thisS) in
  get (stores both) "A" = VRef (Alloc 0) ∧
  get (domains both) "A" = VRef (Alloc 1) ∧
  registerDomain example_heap (VRef (Alloc 1)) thisS = (Normal tt, both) ∧
  registerStore example_heap (VRef (Alloc 0)) thisD = (Normal tt, both) ∧
  ∀ v, (isRegistered example_heap v thisD).1
       = (isRegistered example_heap v init).1.
Proof.
  intros thisS thisD both.
  split; [reflexivity|]. split; [reflexivity|].
  apply (namespaces_independent example_heap (VRef (Alloc 0)) (VRef (Alloc 1))
           init thisS thisD); reflexivity.
Defined.

Lemma nullish_argument_witness :
  getStoreName example_heap VNull = Throw TypeError ∧
  isRegistered example_heap VNull init = (Throw TypeError, init) ∧
  registerDomain example_heap VNull init = (Throw TypeError, init) ∧
  isRegisteredDomain example_heap example_global VNull init
  = (Throw TypeError, init) ∧
  registerStore example_heap VNull init = (Throw invalid_store, init).
Proof.
  apply (nullish_argument example_heap example_global VNull init). reflexivity.
Defined.

(** [new Dispatcher({stores: [A, Log]})]: the one binding under
    [default] is the one [Log] declares. *)
Lemma default_bucket_witness :
  ∃ bs,
    hget (handlers
            (construct example_heap
               (Some (mkOptions (Some [VRef (Alloc 0); VRef (Alloc 5)]) None))).2)
         DEFAULT = EArray bs ∧
    Forall (λ b, ∃ store,
              store ∈ [VRef (Alloc 0); VRef (Alloc 5)] ∧
              declares_default example_heap store b) bs.
Proof.
  destruct (default_bucket example_heap) as (_ & _ & _ & Hctor).
  apply (Hctor (Some (mkOptions (Some [VRef (Alloc 0); VRef (Alloc 5)]) None))
           (Normal tt)).
  reflexivity.
Defined.

(** ** Instances of the further properties *)

(** [class A] stays registered when [registerStore(S)] then throws. *)
Lemma isRegistered_permanent_witness :
  let this := (registerStore example_heap (VRef (Alloc 0)) init).2 in
  let this' := (registerStore example_heap (VRef (Alloc 3)) this).2 in
  isRegistered example_heap (VRef (Alloc 0)) this' = (Normal true, this').
Proof.
  intros this this'.
  apply (isRegistered_permanent example_heap (VRef (Alloc 0)) (VRef (Alloc 3))
           this (Throw TypeError) this'); [reflexivity|left; reflexivity].
Defined.

(** [class A], then the other class that claims the name ["A"]. *)
Lemma registerStore_collision_witness :
  let this' := (registerStore example_heap (VRef (Alloc 0)) init).2 in
  ∃ n, getStoreName example_heap (VRef (Alloc 0)) = Normal (Some n) ∧
       registerStore example_heap (VRef (Alloc 1)) this'
       = (Throw (duplicate_store n), this').
Proof.
  intros this'.
  apply (registerStore_collision example_heap (VRef (Alloc 0)) (VRef (Alloc 1))
           init this'); [reflexivity|reflexivity|discriminate|reflexivity].
Defined.

(** The string ["A"] as a domain, then the class that claims the name. *)
Lemma registerDomain_duplicates_witness :
  let this' := (registerDomain example_heap (VStr "A") init).2 in
  registerDomain example_heap (VStr "A") this' = (Normal tt, this') ∧
  ∃ n, getStoreName example_heap (VStr "A") = Normal (Some n) ∧
       registerDomain example_heap (VRef (Alloc 1)) this'
       = (Throw (duplicate_domain n), this').
Proof.
  intros this'.
  destruct (registerDomain_duplicates example_heap (VStr "A") init this' eq_refl)
    as [Hagain Hother].
  split; [exact Hagain|].
  apply Hother; [discriminate|reflexivity].
Defined.

(** A number as a domain: it has no name. *)
Lemma registerDomain_errors_witness :
  init = init ∧
  ((missing_name = TypeError ∧ nullish (VNum 7) = true) ∨
   (missing_name = missing_name ∧
    ∃ n, getStoreName example_heap (VNum 7) = Normal n ∧
         truthy_name n = false) ∨
   (∃ n, missing_name = duplicate_domain n ∧
         getStoreName example_heap (VNum 7) = Normal (Some n) ∧
         truthy (get (domains init) n) = true ∧
         get (domains init) n ≠ VNum 7)).
Proof.
  apply (registerDomain_errors example_heap (VNum 7) init missing_name init).
  reflexivity.
Defined.

(** [registerStore(S)] on a new dispatcher: the key [toString]. *)
Lemma registerStore_errors_witness :
  let this' := (registerStore example_heap (VRef (Alloc 3)) init).2 in
  (TypeError = invalid_store ∧
   typeof example_heap (VRef (Alloc 3)) ≠ TFunction ∧ this' = init) ∨
  (TypeError = missing_name ∧
   typeof example_heap (VRef (Alloc 3)) = TFunction ∧
   (∃ n, getStoreName example_heap (VRef (Alloc 3)) = Normal n ∧
         truthy_name n = false) ∧
   this' = init) ∨
  (∃ n, TypeError = duplicate_store n ∧
        typeof example_heap (VRef (Alloc 3)) = TFunction ∧
        getStoreName example_heap (VRef (Alloc 3)) = Normal (Some n) ∧
        truthy (get (stores init) n) = true ∧
        get (stores init) n ≠ VRef (Alloc 3) ∧
        this' = init) ∨
  (TypeError = TypeError ∧
   ∃ n hs k, getStoreName example_heap (VRef (Alloc 3)) = Normal (Some n) ∧
             get (stores this') n = VRef (Alloc 3) ∧
             prop_handlers example_heap (VRef (Alloc 3)) = Normal (Some hs) ∧
             k ∈ Object_keys hs ∧ k ∈ Object_prototype_names).
Proof.
  intros this'.
  apply (registerStore_errors example_heap (VRef (Alloc 3)) init TypeError this'
           (reachable_init example_heap)).
  reflexivity.
Defined.

(** [class Log] on the dispatcher that the failed [registerStore(S)]
    leaves. *)
Lemma registerStore_succeeds_witness :
  let this := (registerStore example_heap (VRef (Alloc 3)) init).2 in
  ∃ this', registerStore example_heap (VRef (Alloc 5)) this = (Normal tt, this') ∧
           get (stores this') "Log" = VRef (Alloc 5) ∧
           reachable example_heap this'.
Proof.
  intros this.
  apply (registerStore_succeeds example_heap (VRef (Alloc 5)) "Log" this);
    [ apply (reachable_registerStore example_heap (VRef (Alloc 3)) init
               (Throw TypeError) this (reachable_init example_heap) eq_refl)
    | reflexivity.. | ].
  intros hs [= <-]. repeat constructor; by apply (bool_decide_unpack _).
Defined.

(** [class A] declares [foo] only: [default] is left alone. *)
Lemma registerStore_other_actions_witness :
  hget (handlers (registerStore example_heap (VRef (Alloc 0)) init).2) "default"
  = hget (handlers init) "default".
Proof.
  apply (registerStore_other_actions example_heap (VRef (Alloc 0)) init
           (Normal tt) _ "default"); [reflexivity|].
  intros hs [= <-]. by apply (bool_decide_unpack _).
Defined.

(** The dispatcher that the failed [registerStore(S)] leaves. *)
Lemma reachable_stores_named_witness :
  stores_named example_heap (registerStore example_heap (VRef (Alloc 3)) init).2.
Proof.
  apply (reachable_stores_named example_heap).
  apply (reachable_registerStore example_heap (VRef (Alloc 3)) init
           (Throw TypeError) _ (reachable_init example_heap) eq_refl).
Defined.

(** The dispatcher with the plain object [{storeName: "A"}] as a
    domain. *)
Lemma reachable_domains_named_witness :
  domains_named example_heap (registerDomain example_heap (VRef (Alloc 4)) init).2.
Proof.
  apply (reachable_domains_named example_heap).
  apply (reachable_registerDomain example_heap (VRef (Alloc 4)) init
           (Normal tt) _ (reachable_init example_heap) eq_refl).
Defined.

(** [class Log], then the failed [registerStore(S)]. *)
Lemma reachable_bindings_registered_witness :
  bindings_registered
    (registerStore example_heap (VRef (Alloc 3))
       (registerStore example_heap (VRef (Alloc 5)) init).2).2.
Proof.
  apply (reachable_bindings_registered example_heap).
  apply (reachable_registerStore example_heap (VRef (Alloc 3)) _
           (Throw TypeError) _
           (reachable_registerStore example_heap (VRef (Alloc 5)) init
              (Normal tt) _ (reachable_init example_heap) eq_refl)
           eq_refl).
Defined.

(** [createDispatcher({stores: [A, Log], domains: [B]})]. *)
Lemma createDispatcher_registers_all_witness :
  let o := Some (mkOptions (Some [VRef (Alloc 0); VRef (Alloc 5)])
                           (Some [VRef (Alloc 1)])) in
  let this := (construct example_heap o).2 in
  (∀ s, s ∈ [VRef (Alloc 0); VRef (Alloc 5)] →
        isRegistered example_heap s this = (Normal true, this)) ∧
  (∀ d, d ∈ [VRef (Alloc 1)] →
        ∃ n, getStoreName example_heap d = Normal (Some n) ∧
             get (domains this) n = d).
Proof.
  intros o this.
  apply (createDispatcher_registers_all example_heap o this). reflexivity.
Defined.

(** [new Dispatcher({stores: [A, S]})] throws on [S]. *)
Lemma construct_stores_first_witness :
  let ss := Some [VRef (Alloc 0); VRef (Alloc 3)] in
  let this := (construct example_heap (Some (mkOptions ss None))).2 in
  domains this = ∅ ∧
  ∀ ds, construct example_heap (Some (mkOptions ss ds)) = (Throw TypeError, this).
Proof.
  intros ss this.
  apply (construct_stores_first example_heap ss TypeError this). reflexivity.
Defined.

(** Two calls for the same store and handler under [default]. *)
Lemma _registerHandler_appends_witness :
  let b := mkBinding (Some "A") (VStr "onAny") in
  let this :=
    (_registerHandler example_heap "default" (VStr "A") (VStr "onAny") init).2 in
  let r := _registerHandler example_heap "default" (VStr "A") (VStr "onAny") this in
  r.1 = Normal tt ∧ hget (handlers r.2) "default" = EArray [b; b].
Proof.
  intros b this r.
  exact (proj2 (proj2 (proj2
    (_registerHandler_appends example_heap "default" (VStr "A") (VStr "onAny")
       (Some "A") this eq_refl)))).
Defined.
